(** * txnstats: statistics over the mgo/txn bookkeeping collections

    A shallow embedding of [doc.go] and [txnstats.go] and the properties
    of the scanners, the state renderer and the top-level run.

    Conventions of the embedding:
    - Go's [int] is the 64-bit two's complement integer of the platforms
      the tool is built for; values are [Z] and every addition is wrapped
      by [wrap] explicitly.
    - a Go [error] is represented by the text its [Error()] method
      renders;
    - an [mgo] iterator is the finite list of documents it decodes
      followed by the value its [Err()] reports;
    - the process is observed through the list of [Event]s it performs. *)

From Stdlib Require Import ZArith Lia List Ascii String Permutation.
From stdpp Require Import base numbers list strings gmap fin_maps pretty sorting.

Local Open Scope Z_scope.
Local Open Scope string_scope.

(** ** Go's [int] *)

Module GoInt.

Definition intSize : Z := 64.
Definition maxInt : Z := 2 ^ (intSize - 1) - 1.
Definition minInt : Z := - 2 ^ (intSize - 1).

(** Two's complement wrap-around into [minInt .. maxInt]. *)
Definition wrap (x : Z) : Z :=
  (x + 2 ^ (intSize - 1)) mod 2 ^ intSize - 2 ^ (intSize - 1).

Definition add (a b : Z) : Z := wrap (a + b).

(** [len] of a slice: never negative. *)
Definition len {A} (l : list A) : Z := Z.of_nat (length l).

End GoInt.

Import GoInt.

(** ** doc.go: the document schemas *)

(** [txn.Op] of the mgo/txn package; the tool only takes the length of a
    list of them. *)
Record Op := { OpC : string; OpId : string }.

Definition state := Z.

Definition tinvalid : state := 0.
Definition tpreparing : state := 1.
Definition tprepared : state := 2.
Definition taborting : state := 3.
Definition tapplying : state := 4.
Definition taborted : state := 5.
Definition tapplied : state := 6.
Definition numStates : state := 7.

Record txnDoc := {
  Id : string;
  State : state;
  Ops : list Op;
  Nonce : string
}.

Record docDoc := { Queue : list string }.

(** [fmt.Sprintf("%d", s)]: decimal digits, a leading minus sign for a
    negative number. *)
Definition fmt_d (x : Z) : string := pretty x.

(** [func (s state) String() string] *)
Definition String_ (s : state) : string :=
  if Z.eqb s tinvalid then "invalid"
  else if Z.eqb s tpreparing then "preparing"
  else if Z.eqb s tprepared then "prepared"
  else if Z.eqb s taborting then "aborting"
  else if Z.eqb s tapplying then "applying"
  else if Z.eqb s taborted then "aborted"
  else if Z.eqb s tapplied then "applied"
  else "unknown state: " ++ fmt_d s.

(** [func (s state) MarshalText() ([]byte, error)]; never fails. *)
Definition MarshalText (s : state) : string * option string :=
  (String_ s, None).

(** The seven named constants and their renderings. *)
Definition namedStates : list state :=
  [tinvalid; tpreparing; tprepared; taborting; tapplying; taborted; tapplied].

Definition stateNames : list string :=
  ["invalid"; "preparing"; "prepared"; "aborting"; "applying"; "aborted";
   "applied"].

(** ** txnstats.go: the statistics records *)

Record CollectionStats := {
  DocCount : Z;
  MaxQueued : Z;
  MinQueued : Z;
  TotalQueued : Z
}.

Record LogStats := { LogDocCount : Z }.

Record InProgressStats := {
  States : gmap Z Z;
  MaxOps : Z;
  TotalOps : Z;
  TotalTxns : Z
}.

Record Stats := {
  Collections : gmap string CollectionStats;
  InProgress : InProgressStats;
  Log : LogStats
}.

(** Zero values of the records ([var stats T]); a nil map reads like an
    empty one. *)
Definition zeroCollectionStats : CollectionStats :=
  {| DocCount := 0; MaxQueued := 0; MinQueued := 0; TotalQueued := 0 |}.

Definition zeroLogStats : LogStats := {| LogDocCount := 0 |}.

Definition zeroInProgressStats : InProgressStats :=
  {| States := ∅; MaxOps := 0; TotalOps := 0; TotalTxns := 0 |}.

(** ** The database as the tool sees it *)

Definition error := string.

(** A value or an error, for the [(T, error)] results of Go. *)
Inductive result (A : Type) :=
| Ok (a : A)
| Err (e : error).
Arguments Ok {A} a.
Arguments Err {A} e.

(** A document as stored: the fields some scanner projects. A field
    that is absent decodes to its zero value. *)
Record bsonDoc := {
  b_id : string;
  b_s : Z;
  b_o : list Op;
  b_n : string;
  b_txn_queue : list string
}.

(** Decoding into [docDoc] and [txnDoc], by field tag. *)
Definition decode_docDoc (b : bsonDoc) : docDoc :=
  {| Queue := b_txn_queue b |}.

Definition decode_txnDoc (b : bsonDoc) : txnDoc :=
  {| Id := b_id b; State := b_s b; Ops := b_o b; Nonce := b_n b |}.

(** [*mgo.Collection]: its name, the documents a cursor over it streams
    before it stops, the error the cursor then reports (if any), and the
    answer of [Count()]. *)
Record Collection := {
  Name : string;
  streamed : list bsonDoc;
  iterErr : option error;
  countResult : result Z
}.

(** [*mgo.Iter] after [Find(nil)...Iter()]: [Next] decodes the streamed
    documents one by one, [Err] gives the final error. *)
Record Iter (D : Type) := { items : list D; Err_ : option error }.
Arguments items {D} _.
Arguments Err_ {D} _.

Definition Find_Iter {D} (decode : bsonDoc -> D) (c : Collection) : Iter D :=
  {| items := map decode (streamed c); Err_ := iterErr c |}.

(** ** Library text formatting used by the error messages *)

Module fmt.

Definition dquote : ascii := ascii_of_nat 34.
Definition backslash : ascii := ascii_of_nat 92.

Definition hexDigit (n : nat) : ascii :=
  match nth_error (list_ascii_of_string "0123456789abcdef") n with
  | Some c => c
  | None => "0"%char
  end.

(** The escape [strconv.Quote] writes for one byte. Bytes from 0x80 up
    belong to multi-byte runes and are kept, as for printable runes. *)
Definition quoteByte (c : ascii) : string :=
  let n := nat_of_ascii c in
  let esc (x : string) := String backslash x in
  if Nat.eqb n 34 then esc (String dquote "")
  else if Nat.eqb n 92 then esc (String backslash "")
  else if Nat.eqb n 7 then esc "a"
  else if Nat.eqb n 8 then esc "b"
  else if Nat.eqb n 12 then esc "f"
  else if Nat.eqb n 10 then esc "n"
  else if Nat.eqb n 13 then esc "r"
  else if Nat.eqb n 9 then esc "t"
  else if Nat.eqb n 11 then esc "v"
  else if Nat.ltb n 32 || Nat.eqb n 127
       then esc (String "x" (String (hexDigit (n / 16))
                                    (String (hexDigit (n mod 16)) "")))
  else String c "".

Fixpoint quoteBody (s : string) : string :=
  match s with
  | EmptyString => ""
  | String c s' => quoteByte c ++ quoteBody s'
  end.

(** The verb [%q] on a string. *)
Definition Quote (s : string) : string :=
  String dquote (quoteBody s ++ String dquote "").

End fmt.

(** ** errgo: annotated errors, by the text they render *)

Module errgo.

(** [errgo.Notef(underlying, format, args...)]: the formatted message,
    a colon, the underlying error. *)
Definition Notef (underlying : error) (message : string) : error :=
  message ++ ": " ++ underlying.

(** [errgo.Mask(err)]: no message of its own. *)
Definition Mask (underlying : error) : error := underlying.

End errgo.

(** ** The scanners *)

Definition set_DocCount (v : Z) (s : CollectionStats) : CollectionStats :=
  {| DocCount := v; MaxQueued := MaxQueued s; MinQueued := MinQueued s;
     TotalQueued := TotalQueued s |}.
Definition set_MaxQueued (v : Z) (s : CollectionStats) : CollectionStats :=
  {| DocCount := DocCount s; MaxQueued := v; MinQueued := MinQueued s;
     TotalQueued := TotalQueued s |}.
Definition set_MinQueued (v : Z) (s : CollectionStats) : CollectionStats :=
  {| DocCount := DocCount s; MaxQueued := MaxQueued s; MinQueued := v;
     TotalQueued := TotalQueued s |}.
Definition set_TotalQueued (v : Z) (s : CollectionStats) : CollectionStats :=
  {| DocCount := DocCount s; MaxQueued := MaxQueued s; MinQueued := MinQueued s;
     TotalQueued := v |}.

(** One turn of the loop of [getCollectionStats]; the loop variable
    [first] travels with the accumulator. *)
Definition collStep (acc : CollectionStats * bool) (doc : docDoc)
  : CollectionStats * bool :=
  let '(stats, first) := acc in
  let stats := set_DocCount (add (DocCount stats) 1) stats in
  let stats := set_TotalQueued (add (TotalQueued stats) (len (Queue doc))) stats in
  if first then
    let stats := set_MaxQueued (len (Queue doc)) stats in
    let stats := set_MinQueued (len (Queue doc)) stats in
    (stats, false)
  else
    let stats :=
      if Z.gtb (len (Queue doc)) (MaxQueued stats)
      then set_MaxQueued (len (Queue doc)) stats else stats in
    let stats :=
      if Z.ltb (len (Queue doc)) (MinQueued stats)
      then set_MinQueued (len (Queue doc)) stats else stats in
    (stats, first).

Definition collLoop (docs : list docDoc) : CollectionStats * bool :=
  fold_left collStep docs (zeroCollectionStats, true).

(** [func getCollectionStats(c *mgo.Collection) (CollectionStats, error)] *)
Definition getCollectionStats (c : Collection) : CollectionStats * option error :=
  let iter := Find_Iter decode_docDoc c in
  let stats := fst (collLoop (items iter)) in
  match Err_ iter with
  | Some err =>
      (stats, Some (errgo.Notef err
         ("iteraction over collection " ++ fmt.Quote (Name c) ++ " failed")))
  | None => (stats, None)
  end.

Definition set_States (v : gmap Z Z) (s : InProgressStats) : InProgressStats :=
  {| States := v; MaxOps := MaxOps s; TotalOps := TotalOps s;
     TotalTxns := TotalTxns s |}.
Definition set_MaxOps (v : Z) (s : InProgressStats) : InProgressStats :=
  {| States := States s; MaxOps := v; TotalOps := TotalOps s;
     TotalTxns := TotalTxns s |}.
Definition set_TotalOps (v : Z) (s : InProgressStats) : InProgressStats :=
  {| States := States s; MaxOps := MaxOps s; TotalOps := v;
     TotalTxns := TotalTxns s |}.
Definition set_TotalTxns (v : Z) (s : InProgressStats) : InProgressStats :=
  {| States := States s; MaxOps := MaxOps s; TotalOps := TotalOps s;
     TotalTxns := v |}.

(** Reading a Go map: the zero value for a missing key. *)
Definition mapIndex (m : gmap Z Z) (k : Z) : Z := default 0 (m !! k).

(** [m[k]++] *)
Definition mapIncr (m : gmap Z Z) (k : Z) : gmap Z Z :=
  <[k := add (mapIndex m k) 1]> m.

(** One turn of the loop of [getInProgressStats]. *)
Definition txnStep (stats : InProgressStats) (doc : txnDoc) : InProgressStats :=
  let stats := set_TotalTxns (add (TotalTxns stats) 1) stats in
  let stats := set_TotalOps (add (TotalOps stats) (len (Ops doc))) stats in
  let stats :=
    if Z.gtb (len (Ops doc)) (MaxOps stats)
    then set_MaxOps (len (Ops doc)) stats else stats in
  set_States (mapIncr (States stats) (State doc)) stats.

Definition txnLoop (docs : list txnDoc) : InProgressStats :=
  fold_left txnStep docs (set_States ∅ zeroInProgressStats).

(** [func getInProgressStats(c *mgo.Collection) (InProgressStats, error)] *)
Definition getInProgressStats (c : Collection) : InProgressStats * option error :=
  let iter := Find_Iter decode_txnDoc c in
  let stats := txnLoop (items iter) in
  match Err_ iter with
  | Some err =>
      (stats, Some (errgo.Notef err
         ("iteraction over collection " ++ fmt.Quote (Name c) ++ " failed")))
  | None => (stats, None)
  end.

(** [func getLogStats(c *mgo.Collection) (LogStats, error)] *)
Definition getLogStats (c : Collection) : LogStats * option error :=
  match countResult c with
  | Err err =>
      (zeroLogStats, Some (errgo.Notef err
         ("cannot count items in collection " ++ fmt.Quote (Name c))))
  | Ok n => ({| LogDocCount := n |}, None)
  end.

(** [func wantCollectionStats(collName string) bool] *)
Definition HasPrefix (s p : string) : bool := String.prefix p s.

Definition wantCollectionStats (collName : string) : bool :=
  negb (String.eqb collName "txns") && negb (HasPrefix collName "system.").

(** ** The command line *)

Record commandLineArgs := {
  hostname : string;
  port : string;
  ssl : bool;
  username : string;
  password : string
}.

(** The [flag] package of the Go library, for a flag set whose values
    are stored into a [commandLineArgs]. *)
Module flag.

Inductive parseError :=
| BadSyntax (arg : string)           (* bad flag syntax: arg *)
| NotDefined (name : string)         (* flag provided but not defined *)
| NeedsArgument (name : string)      (* flag needs an argument *)
| InvalidBoolean (value name : string)
| InvalidValue (value name : string)
| ErrHelp.                           (* -h or -help, not defined *)

Record Flag := {
  flagName : string;
  IsBoolFlag : bool;
  (* [Value.Set]: [None] when the text is not a value of the flag *)
  flagSet : string -> commandLineArgs -> option commandLineArgs
}.

(** [strconv.ParseBool] *)
Definition ParseBool (s : string) : option bool :=
  if existsb (String.eqb s) ["1"; "t"; "T"; "TRUE"; "true"; "True"] then Some true
  else if existsb (String.eqb s) ["0"; "f"; "F"; "FALSE"; "false"; "False"]
       then Some false
  else None.

Fixpoint lookupFlag (formal : list Flag) (name : string) : option Flag :=
  match formal with
  | [] => None
  | f :: rest =>
      if String.eqb (flagName f) name then Some f else lookupFlag rest name
  end.

(** Splits [name=value] at the first equals sign found from the second
    character on. *)
Fixpoint splitValue (name : string) : string * option string :=
  match name with
  | EmptyString => ("", None)
  | String c rest =>
      if Ascii.eqb c "="%char then ("", Some rest)
      else let '(n, v) := splitValue rest in (String c n, v)
  end.

Definition splitNameValue (name : string) : string * option string :=
  match name with
  | EmptyString => ("", None)
  | String c rest => let '(n, v) := splitValue rest in (String c n, v)
  end.

Definition byteIs (s : string) (i : nat) (c : ascii) : bool :=
  match String.get i s with
  | Some d => Ascii.eqb d c
  | None => false
  end.

(** [FlagSet.Parse]: [parseOne] repeated until the first argument that
    is not a flag, the terminator [--], or an error. *)
Fixpoint Parse (formal : list Flag) (arguments : list string)
    (a : commandLineArgs) : commandLineArgs + parseError :=
  match arguments with
  | [] => inl a
  | s :: rest =>
      if Nat.ltb (String.length s) 2 || negb (byteIs s 0 "-") then inl a
      else
        let numMinuses := if byteIs s 1 "-" then 2%nat else 1%nat in
        if Nat.eqb numMinuses 2 && Nat.eqb (String.length s) 2 then inl a
        else
          let name := String.substring numMinuses
                        (String.length s - numMinuses) s in
          if Nat.eqb (String.length name) 0 || byteIs name 0 "-"
             || byteIs name 0 "="
          then inr (BadSyntax s)
          else
            let '(name, value) := splitNameValue name in
            match lookupFlag formal name with
            | None =>
                if String.eqb name "help" || String.eqb name "h"
                then inr ErrHelp else inr (NotDefined name)
            | Some f =>
                if IsBoolFlag f then
                  let text := match value with Some v => v | None => "true" end in
                  match flagSet f text a with
                  | Some a' => Parse formal rest a'
                  | None => inr (InvalidBoolean text name)
                  end
                else
                  match value with
                  | Some v =>
                      match flagSet f v a with
                      | Some a' => Parse formal rest a'
                      | None => inr (InvalidValue v name)
                      end
                  | None =>
                      match rest with
                      | v :: rest' =>
                          match flagSet f v a with
                          | Some a' => Parse formal rest' a'
                          | None => inr (InvalidValue v name)
                          end
                      | [] => inr (NeedsArgument name)
                      end
                  end
            end
  end.

End flag.

(** What the process does that can be seen from outside, in order. *)
Record DialInfo := {
  Addrs : list string;
  Database_ : string;
  Username : string;
  Password : string;
  DialServerSSL : bool   (* [DialServer] is [dialSSL] *)
}.

Inductive Event :=
| EvStderr (text : string)
| EvFlagError (e : flag.parseError)  (* the flag package's message and usage *)
| EvDial (info : DialInfo)           (* [mgo.DialWithInfo]: the network is used *)
| EvStdout (report : Stats)          (* the indented JSON of the report *)
| EvExit (status : Z).

Definition set_hostname (v : string) (a : commandLineArgs) :=
  {| hostname := v; port := port a; ssl := ssl a; username := username a;
     password := password a |}.
Definition set_port (v : string) (a : commandLineArgs) :=
  {| hostname := hostname a; port := v; ssl := ssl a; username := username a;
     password := password a |}.
Definition set_ssl (v : bool) (a : commandLineArgs) :=
  {| hostname := hostname a; port := port a; ssl := v; username := username a;
     password := password a |}.
Definition set_username (v : string) (a : commandLineArgs) :=
  {| hostname := hostname a; port := port a; ssl := ssl a; username := v;
     password := password a |}.
Definition set_password (v : string) (a : commandLineArgs) :=
  {| hostname := hostname a; port := port a; ssl := ssl a; username := username a;
     password := v |}.

Definition StringVar (name : string)
    (set : string -> commandLineArgs -> commandLineArgs) : flag.Flag :=
  {| flag.flagName := name; flag.IsBoolFlag := false;
     flag.flagSet := fun v a => Some (set v a) |}.

Definition BoolVar (name : string)
    (set : bool -> commandLineArgs -> commandLineArgs) : flag.Flag :=
  {| flag.flagName := name; flag.IsBoolFlag := true;
     flag.flagSet := fun v a =>
       match flag.ParseBool v with
       | Some b => Some (set b a)
       | None => None
       end |}.

(** The flags [commandLine] registers, and the defaults they start from. *)
Definition flags : list flag.Flag :=
  [ StringVar "hostname" set_hostname;
    StringVar "port" set_port;
    BoolVar "ssl" set_ssl;
    StringVar "username" set_username;
    StringVar "password" set_password ].

Definition flagDefaults : commandLineArgs :=
  {| hostname := "localhost"; port := "37017"; ssl := true;
     username := "admin"; password := "" |}.

Definition newline : string := String (ascii_of_nat 10) "".

Definition passwordMessage : string :=
  "error: -password must be used if username is provided" ++ newline.

(** [func commandLine() commandLineArgs], on [os.Args[1:]]. The flag set
    exits with status 2 on a parse error ([flag.ExitOnError]; for [-h] a
    Go library from 1.15 on exits with 0 instead); the check of the
    password exits with 2. An exit is [inr] of what was written. *)
Definition commandLine (osArgs : list string) : commandLineArgs + list Event :=
  match flag.Parse flags osArgs flagDefaults with
  | inr e => inr [EvFlagError e; EvExit 2]
  | inl a =>
      if String.eqb (password a) "" && negb (String.eqb (username a) "")
      then inr [EvStderr passwordMessage; EvExit 2]
      else inl a
  end.

(** ** The server *)

(** What the server holds under a collection name: the documents a
    cursor streams before it stops, the error the cursor then reports
    (if any), and the answer to a count. *)
Record Stored := {
  st_streamed : list bsonDoc;
  st_iterErr : option error;
  st_count : result Z
}.

(** [*mgo.Database] *)
Record Database := {
  CollectionNames : result (list string);
  stored : string -> Stored
}.

(** [db.C(name)]: a handle carrying the name it was asked for. *)
Definition C (db : Database) (name : string) : Collection :=
  {| Name := name;
     streamed := st_streamed (stored db name);
     iterErr := st_iterErr (stored db name);
     countResult := st_count (stored db name) |}.

(** [*mgo.Session] *)
Record Session := { DB : string -> Database }.

(** The surroundings of one run: what dialling answers, and the order in
    which the errors of failing units reach the collector of the
    [parallel.Run], given in the order the units were started. *)
Record World := {
  DialWithInfo : DialInfo -> result Session;
  arrival : list error -> list error
}.

(** ** parallel: the bounded run *)

Module parallel.

(** The errors sent to the collector so far, and the bound on units in
    flight. Units write to places of their own, so their effects on the
    shared variables are applied as the units are started. *)
Record Run := { maxPar : Z; done : list error }.

Definition NewRun (maxPar : Z) : Run := {| maxPar := maxPar; done := [] |}.

(** [run.Do(f)]: [f] acts on the shared variables [V] and may fail. *)
Definition Do {V} (r : Run) (f : V -> V * option error) (v : V) : V * Run :=
  match f v with
  | (v', Some err) => (v', {| maxPar := maxPar r; done := done r ++ [err] |})
  | (v', None) => (v', r)
  end.

(** [Errors.Error()] *)
Definition Errors_Error (errs : list error) : string :=
  match errs with
  | [] => "no error"
  | [e] => e
  | e :: rest => e ++ " (and " ++ fmt_d (len rest) ++ " more)"
  end.

(** [run.Wait()]: nil when no unit failed, else the errors in the order
    they arrived. *)
Definition Wait (arrive : list error -> list error) (r : Run) : option error :=
  match arrive (done r) with
  | [] => None
  | errs => Some (Errors_Error errs)
  end.

End parallel.

(** [sort.Strings]: ascending, bytes compared. *)
Definition strLe (a b : string) : Prop := String.leb a b = true.

#[global] Instance strLe_dec : RelDecision strLe.
Proof. intros a b. unfold strLe. apply _. Defined.

Definition sort_Strings (l : list string) : list string := merge_sort strLe l.

(** [net.JoinHostPort] *)
Definition hasByte (c : ascii) (s : string) : bool :=
  existsb (Ascii.eqb c) (list_ascii_of_string s).

Definition JoinHostPort (host port : string) : string :=
  if hasByte ":" host || hasByte "%" host
  then "[" ++ host ++ "]:" ++ port
  else host ++ ":" ++ port.

(** [func dial(args commandLineArgs)], a session or an error: the
    [DialInfo] it builds, then [mgo.DialWithInfo]. *)
Definition dialInfo (args : commandLineArgs) : DialInfo :=
  let info := {| Addrs := [JoinHostPort (hostname args) (port args)];
                 Database_ := ""; Username := ""; Password := "";
                 DialServerSSL := false |} in
  let info :=
    if negb (String.eqb (username args) "")
    then {| Addrs := Addrs info; Database_ := "admin";
            Username := username args; Password := password args;
            DialServerSSL := DialServerSSL info |}
    else info in
  if ssl args
  then {| Addrs := Addrs info; Database_ := Database_ info;
          Username := Username info; Password := Password info;
          DialServerSSL := true |}
  else info.

Definition dial (w : World) (args : commandLineArgs) : result Session :=
  match DialWithInfo w (dialInfo args) with
  | Err err => Err err
  | Ok session => Ok session
  end.

(** [log.Fatal(v...)]: the operands printed as by [fmt.Print] (the
    logger's time stamp left out), then exit status 1. *)
Definition log_Fatal (text : string) : list Event :=
  [EvStderr text; EvExit 1].

(** ** main *)

(** The unit of work started for the collection at index [i]. *)
Definition collUnit (db : Database) (i : nat) (collName : string)
    (collStats : list CollectionStats) : list CollectionStats * option error :=
  let c := C db collName in
  match getCollectionStats c with
  | (_, Some err) =>
      (collStats,
       Some (errgo.Notef err ("cannot gather stats on " ++ Name c ++ ": " ++ err)))
  | (stats, None) => (<[i := stats]> collStats, None)
  end.

(** The first loop of [main]: one unit for each wanted name. *)
Fixpoint startScans (db : Database) (i : nat) (collNames : list string)
    (acc : list CollectionStats * parallel.Run)
  : list CollectionStats * parallel.Run :=
  match collNames with
  | [] => acc
  | collName :: rest =>
      if negb (wantCollectionStats collName)
      then startScans db (S i) rest acc
      else startScans db (S i) rest
             (parallel.Do (snd acc) (collUnit db i collName) (fst acc))
  end.

Definition set_Collections (v : gmap string CollectionStats) (s : Stats) : Stats :=
  {| Collections := v; InProgress := InProgress s; Log := Log s |}.
Definition set_InProgress (v : InProgressStats) (s : Stats) : Stats :=
  {| Collections := Collections s; InProgress := v; Log := Log s |}.
Definition set_Log (v : LogStats) (s : Stats) : Stats :=
  {| Collections := Collections s; InProgress := InProgress s; Log := v |}.

Definition logUnit (db : Database) (stats : Stats) : Stats * option error :=
  match getLogStats (C db "txns.log") with
  | (_, Some err) => (stats, Some (errgo.Mask err))
  | (logStats, None) => (set_Log logStats stats, None)
  end.

Definition inProgressUnit (db : Database) (stats : Stats) : Stats * option error :=
  match getInProgressStats (C db "txns") with
  | (_, Some err) => (stats, Some (errgo.Mask err))
  | (inProgressStats, None) => (set_InProgress inProgressStats stats, None)
  end.

(** [collStats[i]]; the index is always in range, see [startScans_length]. *)
Definition slot (collStats : list CollectionStats) (i : nat) : CollectionStats :=
  default zeroCollectionStats (collStats !! i).

(** The last loop of [main]: the report keeps the wanted collections
    with something queued. *)
Fixpoint mergeScans (collStats : list CollectionStats) (i : nat)
    (collNames : list string) (stats : Stats) : Stats :=
  match collNames with
  | [] => stats
  | collName :: rest =>
      if negb (wantCollectionStats collName)
      then mergeScans collStats (S i) rest stats
      else if Z.gtb (TotalQueued (slot collStats i)) 0
      then mergeScans collStats (S i) rest
             (set_Collections (<[collName := slot collStats i]> (Collections stats))
                stats)
      else mergeScans collStats (S i) rest stats
  end.

(** [main] from the point where the collection names are known. *)
Definition gather (w : World) (db : Database) (collNames : list string)
  : list Event :=
  let collNames := sort_Strings collNames in
  let collStats := replicate (length collNames) zeroCollectionStats in
  let run := parallel.NewRun 10 in
  let '(collStats, run) := startScans db 0 collNames (collStats, run) in
  let stats := {| Collections := ∅; InProgress := zeroInProgressStats;
                  Log := zeroLogStats |} in
  let '(stats, run) := parallel.Do run (logUnit db) stats in
  let '(stats, run) := parallel.Do run (inProgressUnit db) stats in
  match parallel.Wait (arrival w) run with
  | Some err => log_Fatal err
  | None =>
      let stats := mergeScans collStats 0 collNames stats in
      [EvStdout stats; EvExit 0]
  end.

(** [func main()], on [os.Args[1:]]: everything the process does. *)
Definition main (w : World) (osArgs : list string) : list Event :=
  match commandLine osArgs with
  | inr exit => exit
  | inl args =>
      EvDial (dialInfo args) ::
      match dial w args with
      | Err err => log_Fatal ("cannot dial mongodb: %v" ++ err)
      | Ok session =>
          let db := DB session "juju" in
          match CollectionNames db with
          | Err err => log_Fatal ("cannot dial mongodb: %v" ++ err)
          | Ok collNames => gather w db collNames
          end
      end
  end.

(** ** Vocabulary of the statements *)

Definition sumZ (l : list Z) : Z := fold_right Z.add 0 l.

(** The queue lengths, operation-list lengths and state codes of the
    documents a cursor over [c] streams, in order. *)
Definition queueLengths (c : Collection) : list Z :=
  map (fun b => len (b_txn_queue b)) (streamed c).

Definition opsLengths (c : Collection) : list Z :=
  map (fun b => len (b_o b)) (streamed c).

Definition stateCodes (c : Collection) : list Z := map b_s (streamed c).

Definition qlen (d : docDoc) : Z := len (Queue d).

Definition olen (d : txnDoc) : Z := len (Ops d).

(** How many of the codes are [s]. *)
Definition countCode (s : Z) (codes : list Z) : Z :=
  len (List.filter (Z.eqb s) codes).

(** The sum of all values of a map. *)
Definition sumValues (m : gmap Z Z) : Z :=
  map_fold (fun _ v acc => v + acc) 0 m.

Definition isMax (m : Z) (l : list Z) : Prop :=
  In m l /\ Forall (fun q => q <= m) l.

Definition isMin (m : Z) (l : list Z) : Prop :=
  In m l /\ Forall (fun q => m <= q) l.

(** The histogram of a scan of [c] has an entry for each of the seven
    named states, zero for a state no streamed document carries. *)
Definition allNamedStatesPresent (c : Collection) : Prop :=
  forall s, In s namedStates ->
    exists v, States (fst (getInProgressStats c)) !! s = Some v /\
              (~ In s (stateCodes c) -> v = 0).

(** The statistics and the error of the scan of the collection [name],
    as the unit started for it computes them. *)
Definition scanned (db : Database) (name : string) : CollectionStats :=
  fst (getCollectionStats (C db name)).

Definition scanError (db : Database) (name : string) : option error :=
  snd (collUnit db 0 name []).

(** The report as [main] creates it, and as the two last units leave it. *)
Definition emptyStats : Stats :=
  {| Collections := ∅; InProgress := zeroInProgressStats; Log := zeroLogStats |}.

Definition headerStats (db : Database) : Stats :=
  fst (inProgressUnit db (fst (logUnit db emptyStats))).

Definition logError (db : Database) : option error :=
  snd (logUnit db emptyStats).

Definition inProgressError (db : Database) : option error :=
  snd (inProgressUnit db emptyStats).

(** The slots after the first loop of [main] over the sorted names. *)
Definition scanSlots (db : Database) (sorted : list string)
  : list CollectionStats :=
  fst (startScans db 0 sorted
         (replicate (length sorted) zeroCollectionStats, parallel.NewRun 10)).

(** The errors of the failing units, in the order the units are started. *)
Definition launchErrors (db : Database) (collNames : list string) : list error :=
  (omap (scanError db) (List.filter wantCollectionStats collNames)
   ++ option_list (logError db) ++ option_list (inProgressError db))%list.

(** The unit of work on the collection [coll] fails: the cursor of a
    scan reports an error, or the count of the log does. *)
Definition unitFails (db : Database) (collNames : list string) (coll : string)
  : Prop :=
  (In coll collNames /\ wantCollectionStats coll = true /\
   is_Some (iterErr (C db coll)))
  \/ (coll = "txns.log" /\ exists e, countResult (C db "txns.log") = Err e)
  \/ (coll = "txns" /\ is_Some (iterErr (C db "txns"))).

(** The errors reach the collector in some order, none lost or made up. *)
Definition faithful (w : World) : Prop :=
  forall errs, Permutation (arrival w errs) errs.

(** The report a trace writes, if any, and the status it exits with. *)
Fixpoint reportOf (trace : list Event) : option Stats :=
  match trace with
  | [] => None
  | EvStdout report :: _ => Some report
  | _ :: rest => reportOf rest
  end.

Fixpoint exitStatus (trace : list Event) : option Z :=
  match trace with
  | [] => None
  | EvExit status :: _ => Some status
  | _ :: rest => exitStatus rest
  end.

(** A string occurs inside another. *)
Definition mentions (text name : string) : Prop :=
  exists before after, text = before ++ name ++ after.

(** ** Sample data *)

Definition queued (n : nat) : bsonDoc :=
  {| b_id := ""; b_s := 0; b_o := []; b_n := "";
     b_txn_queue := repeat "5a1b_0f3c" n |}.

Definition txnOf (s : Z) (ops : nat) : bsonDoc :=
  {| b_id := ""; b_s := s; b_o := repeat {| OpC := "charms"; OpId := "x" |} ops;
     b_n := ""; b_txn_queue := [] |}.

Definition charms : Collection :=
  {| Name := "charms"; streamed := [queued 0; queued 2; queued 1];
     iterErr := None; countResult := Ok 3 |}.

Definition noTxns : Collection :=
  {| Name := "txns"; streamed := []; iterErr := None; countResult := Ok 0 |}.

Definition twoTxns : Collection :=
  {| Name := "txns"; streamed := [txnOf 1 2; txnOf 6 3];
     iterErr := None; countResult := Ok 2 |}.

(** A server with a few collections; [fail] is the error, if any, that
    the cursor over "charms" ends with. *)
Definition sampleStored (fail : option error) (name : string) : Stored :=
  if String.eqb name "charms"
  then {| st_streamed := [queued 0; queued 2; queued 1]; st_iterErr := fail;
          st_count := Ok 3 |}
  else if String.eqb name "txns"
  then {| st_streamed := [txnOf 1 2; txnOf 6 3]; st_iterErr := None;
          st_count := Ok 2 |}
  else if String.eqb name "txns.log"
  then {| st_streamed := [queued 1]; st_iterErr := None; st_count := Ok 7 |}
  else {| st_streamed := []; st_iterErr := None; st_count := Ok 0 |}.

Definition sampleDB (fail : option error) : Database :=
  {| CollectionNames :=
       Ok ["txns"; "system.indexes"; "idle"; "txns.log"; "charms"];
     stored := sampleStored fail |}.

Definition sampleSession (fail : option error) : Session :=
  {| DB := fun _ => sampleDB fail |}.

Definition sampleWorld (fail : option error) : World :=
  {| DialWithInfo := fun _ => Ok (sampleSession fail);
     arrival := fun errs => rev errs |}.

Definition sampleArgs : list string := ["-password"; "secret"].

Definition sampleParsed : commandLineArgs := set_password "secret" flagDefaults.

Definition sampleReport : Stats :=
  default emptyStats (reportOf (main (sampleWorld None) sampleArgs)).

(** ** Further vocabulary and sample data *)

(** The extremum of a list started from its first element, zero for the
    empty list. *)
Definition seeded (f : Z -> Z -> Z) (qs : list Z) : Z :=
  match qs with
  | [] => 0
  | q :: rest => fold_left f rest q
  end.

(** What a scan of documents with queue lengths [qs] accumulates. *)
Definition collReduced (qs : list Z) : CollectionStats :=
  {| DocCount := wrap (len qs);
     MaxQueued := seeded Z.max qs;
     MinQueued := seeded Z.min qs;
     TotalQueued := wrap (sumZ qs) |}.

(** [cause] is the error under the failure of the unit on [coll]. *)
Definition unitCause (db : Database) (collNames : list string)
    (coll : string) (cause : error) : Prop :=
  (In coll collNames /\ wantCollectionStats coll = true /\
   iterErr (C db coll) = Some cause)
  \/ (coll = "txns.log" /\ countResult (C db "txns.log") = Err cause)
  \/ (coll = "txns" /\ iterErr (C db "txns") = Some cause).


Definition charmsReversed : Collection :=
  {| Name := "charms"; streamed := [queued 1; queued 2; queued 0];
     iterErr := Some "EOF"; countResult := Ok 3 |}.

Definition twoTxnsReversed : Collection :=
  {| Name := "txns"; streamed := [txnOf 6 3; txnOf 1 2];
     iterErr := None; countResult := Ok 2 |}.



(** The sample server listing its collections in another order, with
    errors arriving in the order the units were started. *)
Definition shuffledDB : Database :=
  {| CollectionNames :=
       Ok ["charms"; "idle"; "txns"; "charms"; "txns.log"; "system.indexes"];
     stored := sampleStored None |}.

Definition inOrderWorld : World :=
  {| DialWithInfo := fun _ => Ok {| DB := fun _ => shuffledDB |};
     arrival := fun errs => errs |}.

Definition charmsTwice : Collection :=
  {| Name := "charms";
     streamed := (streamed charms ++ streamed charmsReversed)%list;
     iterErr := None; countResult := Ok 6 |}.

Definition fourTxns : Collection :=
  {| Name := "txns";
     streamed := (streamed twoTxns ++ streamed twoTxnsReversed)%list;
     iterErr := None; countResult := Ok 4 |}.

(** ** Facts about Go's [int] *)

Section GoIntFacts.

Lemma wrap_small x : minInt <= x <= maxInt -> wrap x = x.
Proof.
  unfold wrap, minInt, maxInt, intSize. intros H.
  rewrite Z.mod_small; lia.
Qed.

Lemma wrap_range x : minInt <= wrap x <= maxInt.
Proof.
  unfold wrap, minInt, maxInt, intSize.
  pose proof (Z.mod_pos_bound (x + 2 ^ (64 - 1)) (2 ^ 64) ltac:(lia)). lia.
Qed.

Lemma len_nonneg {A} (l : list A) : 0 <= len l.
Proof. unfold len. lia. Qed.

Lemma len_nil {A} : len (@nil A) = 0.
Proof. reflexivity. Qed.

Lemma len_cons {A} (x : A) l : len (x :: l) = 1 + len l.
Proof. unfold len. cbn [length]. lia. Qed.

Lemma add_small a b : minInt <= a + b <= maxInt -> add a b = a + b.
Proof. apply wrap_small. Qed.

Lemma maxInt_pos : 0 < maxInt.
Proof. reflexivity. Qed.

Lemma minInt_neg : minInt < 0.
Proof. reflexivity. Qed.

End GoIntFacts.

(** ** The collection scanner *)

Section CollectionScanner.

Lemma queueLengths_items c :
  queueLengths c = map qlen (items (Find_Iter decode_docDoc c)).
Proof. unfold queueLengths. cbn. by rewrite map_map. Qed.

Lemma sumZ_nonneg l : Forall (fun q => 0 <= q) l -> 0 <= sumZ l.
Proof. unfold sumZ. induction 1; cbn; lia. Qed.

Lemma qlens_nonneg docs : Forall (fun q => 0 <= q) (map qlen docs).
Proof. apply Forall_map, Forall_forall. intros d _. apply len_nonneg. Qed.

Lemma collLoop_second docs acc :
  snd acc = false -> snd (fold_left collStep docs acc) = false.
Proof.
  revert acc. induction docs as [|d docs IH]; intros [st f] Hf; [done|].
  cbn in Hf. subst f. cbn [fold_left]. apply IH. unfold collStep. by cbn.
Qed.

Lemma collStep_DocCount st f d :
  DocCount (fst (collStep (st, f) d)) = add (DocCount st) 1.
Proof.
  unfold collStep. destruct f; cbn; [done|].
  repeat case_match; done.
Qed.

Lemma collStep_TotalQueued st f d :
  TotalQueued (fst (collStep (st, f) d)) = add (TotalQueued st) (qlen d).
Proof.
  unfold collStep. destruct f; cbn; [done|].
  repeat case_match; done.
Qed.

Lemma collFold_DocCount docs st f :
  0 <= DocCount st -> DocCount st + len docs <= maxInt ->
  DocCount (fst (fold_left collStep docs (st, f))) = DocCount st + len docs.
Proof.
  revert st f. induction docs as [|d docs IH]; intros st f H0 Hmax.
  - rewrite len_nil. cbn. lia.
  - rewrite len_cons in *. cbn [fold_left].
    pose proof (len_nonneg docs). pose proof minInt_neg.
    pose proof (collStep_DocCount st f d) as Hd.
    rewrite add_small in Hd by lia.
    destruct (collStep (st, f) d) as [st' f'] eqn:E. cbn in Hd.
    rewrite IH; lia.
Qed.

Lemma collFold_TotalQueued docs st f :
  0 <= TotalQueued st -> TotalQueued st + sumZ (map qlen docs) <= maxInt ->
  TotalQueued (fst (fold_left collStep docs (st, f)))
  = TotalQueued st + sumZ (map qlen docs).
Proof.
  revert st f. induction docs as [|d docs IH]; intros st f H0 Hmax.
  - cbn. lia.
  - cbn [fold_left map sumZ fold_right] in *. fold (sumZ (map qlen docs)) in *.
    pose proof (sumZ_nonneg _ (qlens_nonneg docs)). pose proof minInt_neg.
    assert (0 <= qlen d) by apply len_nonneg.
    pose proof (collStep_TotalQueued st f d) as Hd.
    rewrite add_small in Hd by lia.
    destruct (collStep (st, f) d) as [st' f'] eqn:E. cbn in Hd.
    rewrite IH; lia.
Qed.

Lemma collStep_extrema st d :
  let r := collStep (st, false) d in
  snd r = false /\
  MaxQueued (fst r) = Z.max (MaxQueued st) (qlen d) /\
  MinQueued (fst r) = Z.min (MinQueued st) (qlen d).
Proof.
  unfold collStep. cbn. fold (qlen d).
  destruct (Z.gtb_spec (qlen d) (MaxQueued st)); cbn;
    destruct (Z.ltb_spec (qlen d) (MinQueued st)); cbn;
    repeat split; lia.
Qed.

Lemma collFold_extrema docs st :
  let r := fst (fold_left collStep docs (st, false)) in
  MaxQueued r = fold_left Z.max (map qlen docs) (MaxQueued st) /\
  MinQueued r = fold_left Z.min (map qlen docs) (MinQueued st).
Proof.
  revert st. induction docs as [|d docs IH]; intros st; [done|].
  cbn [fold_left map]. cbn zeta in *.
  destruct (collStep_extrema st d) as (Hf & Hmax & Hmin).
  destruct (collStep (st, false) d) as [st' f']. cbn in Hf, Hmax, Hmin.
  subst f'. rewrite <- Hmax, <- Hmin. apply IH.
Qed.

Lemma fold_max_ge l a : a <= fold_left Z.max l a.
Proof.
  revert a. induction l as [|x l IH]; intros a; cbn; [lia|].
  specialize (IH (Z.max a x)). lia.
Qed.

Lemma fold_min_le l a : fold_left Z.min l a <= a.
Proof.
  revert a. induction l as [|x l IH]; intros a; cbn; [lia|].
  specialize (IH (Z.min a x)). lia.
Qed.

Lemma fold_max_isMax l a : isMax (fold_left Z.max l a) (a :: l).
Proof.
  revert a. induction l as [|x l IH]; intros a; cbn.
  - split; [by left | constructor; [lia | constructor]].
  - destruct (IH (Z.max a x)) as [Hin Hall]. split.
    + destruct Hin as [Hin | Hin]; [|by right; right].
      rewrite <- Hin. destruct (Z.max_spec a x) as [[_ ->] | [_ ->]];
        [right; by left | by left].
    + apply Forall_cons in Hall as [Ha Hall].
      repeat constructor; [lia | lia | done].
Qed.

Lemma fold_min_isMin l a : isMin (fold_left Z.min l a) (a :: l).
Proof.
  revert a. induction l as [|x l IH]; intros a; cbn.
  - split; [by left | constructor; [lia | constructor]].
  - destruct (IH (Z.min a x)) as [Hin Hall]. split.
    + destruct Hin as [Hin | Hin]; [|by right; right].
      rewrite <- Hin. destruct (Z.min_spec a x) as [[_ ->] | [_ ->]];
        [by left | right; by left].
    + apply Forall_cons in Hall as [Ha Hall].
      repeat constructor; [lia | lia | done].
Qed.

Lemma getCollectionStats_fst c :
  fst (getCollectionStats c)
  = fst (collLoop (items (Find_Iter decode_docDoc c))).
Proof. unfold getCollectionStats. cbn. by destruct (iterErr c). Qed.

(** C1. The statistics [getCollectionStats] returns for the documents a
    cursor streams, with queue lengths [qs]: [DocCount] is their number
    and [TotalQueued] their sum, as long as these fit Go's [int];
    [MaxQueued] and [MinQueued] are the largest and the smallest of them,
    both started from the first document and folded over the others;
    with no document all four fields are zero. This holds whether or not
    the cursor ends in an error. *)
Theorem getCollectionStats_reduces (c : Collection) :
  let qs := queueLengths c in
  let stats := fst (getCollectionStats c) in
  (len qs <= maxInt -> DocCount stats = len qs) /\
  (sumZ qs <= maxInt -> TotalQueued stats = sumZ qs) /\
  (qs = [] ->
     MaxQueued stats = 0 /\ MinQueued stats = 0 /\
     TotalQueued stats = 0 /\ DocCount stats = 0) /\
  (forall q rest, qs = q :: rest ->
     MaxQueued stats = fold_left Z.max rest q /\ isMax (MaxQueued stats) qs /\
     MinQueued stats = fold_left Z.min rest q /\ isMin (MinQueued stats) qs).
Proof.
  cbn zeta. rewrite getCollectionStats_fst, queueLengths_items.
  set (docs := items (Find_Iter decode_docDoc c)). unfold collLoop.
  split; [|split; [|split]].
  - intros Hn. unfold len in Hn. rewrite length_map in Hn.
    rewrite collFold_DocCount; cbn [DocCount zeroCollectionStats].
    + unfold len. rewrite length_map. lia.
    + lia.
    + unfold len. lia.
  - intros Hs. rewrite collFold_TotalQueued; cbn [TotalQueued zeroCollectionStats];
      lia.
  - intros H. apply map_eq_nil in H. by rewrite H.
  - intros q rest H.
    destruct docs as [|d docs']; [done|]. cbn in H. injection H as <- <-.
    cbn [fold_left]. unfold collStep at 2 4 6 8. cbn -[fold_left collStep].
    match goal with |- context [fold_left collStep docs' (?s, false)] =>
      destruct (collFold_extrema docs' s) as [-> ->] end.
    cbn [MaxQueued MinQueued set_MinQueued set_MaxQueued map]. fold (qlen d).
    split; [done|]. split; [apply fold_max_isMax|].
    split; [done|]. apply fold_min_isMin.
Qed.

(** The theorem at the collection [charms], queues of 0, 2 and 1. *)
Lemma charms_statistics :
  let stats := fst (getCollectionStats charms) in
  DocCount stats = 3 /\ TotalQueued stats = 3 /\
  MaxQueued stats = 2 /\ MinQueued stats = 0.
Proof.
  destruct (getCollectionStats_reduces charms) as (Hn & Hs & _ & Hx).
  destruct (Hx 0 [2; 1] eq_refl) as (Hmax & _ & Hmin & _).
  cbn zeta. rewrite Hn, Hs, Hmax, Hmin.
  - repeat split.
  - vm_compute. discriminate.
  - vm_compute. discriminate.
Defined.

End CollectionScanner.

(** ** The transaction scanner *)

Section TransactionScanner.

Lemma stateCodes_items c :
  stateCodes c = map State (items (Find_Iter decode_txnDoc c)).
Proof. unfold stateCodes. cbn. by rewrite map_map. Qed.

Lemma opsLengths_items c :
  opsLengths c = map olen (items (Find_Iter decode_txnDoc c)).
Proof. unfold opsLengths. cbn. by rewrite map_map. Qed.

Lemma getInProgressStats_fst c :
  fst (getInProgressStats c) = txnLoop (items (Find_Iter decode_txnDoc c)).
Proof. unfold getInProgressStats. cbn. by destruct (iterErr c). Qed.

Lemma txnStep_fields st d :
  TotalTxns (txnStep st d) = add (TotalTxns st) 1 /\
  TotalOps (txnStep st d) = add (TotalOps st) (olen d) /\
  MaxOps (txnStep st d) = Z.max (MaxOps st) (olen d) /\
  States (txnStep st d) = mapIncr (States st) (State d).
Proof.
  unfold txnStep. cbn. fold (olen d).
  destruct (Z.gtb_spec (olen d) (MaxOps st)); cbn; repeat split; lia.
Qed.

Lemma txnLoop_snoc docs d : txnLoop (docs ++ [d]) = txnStep (txnLoop docs) d.
Proof. unfold txnLoop. by rewrite fold_left_app. Qed.

Lemma olens_nonneg docs : Forall (fun q => 0 <= q) (map olen docs).
Proof. apply Forall_map, Forall_forall. intros d _. apply len_nonneg. Qed.

Lemma sumZ_snoc l x : sumZ (l ++ [x]) = sumZ l + x.
Proof. unfold sumZ. induction l as [|y l IH]; cbn; lia. Qed.

Lemma len_snoc {A} (l : list A) x : len (l ++ [x]) = len l + 1.
Proof. unfold len. rewrite length_app. cbn. lia. Qed.

Lemma txnLoop_TotalTxns docs :
  len docs <= maxInt -> TotalTxns (txnLoop docs) = len docs.
Proof.
  induction docs as [|d docs IH] using rev_ind; intros Hn; [done|].
  rewrite len_snoc in *. pose proof (len_nonneg docs). pose proof minInt_neg.
  rewrite txnLoop_snoc.
  destruct (txnStep_fields (txnLoop docs) d) as (-> & _).
  rewrite IH by lia. apply add_small. lia.
Qed.

Lemma txnLoop_TotalOps docs :
  sumZ (map olen docs) <= maxInt ->
  TotalOps (txnLoop docs) = sumZ (map olen docs).
Proof.
  induction docs as [|d docs IH] using rev_ind; intros Hn; [done|].
  rewrite map_app in *. cbn [map] in *. rewrite sumZ_snoc in *.
  pose proof (sumZ_nonneg _ (olens_nonneg docs)). pose proof minInt_neg.
  assert (0 <= olen d) by apply len_nonneg.
  rewrite txnLoop_snoc.
  destruct (txnStep_fields (txnLoop docs) d) as (_ & -> & _).
  rewrite IH by lia. apply add_small. lia.
Qed.

Lemma fold_max_snoc l a x :
  fold_left Z.max (l ++ [x]) a = Z.max (fold_left Z.max l a) x.
Proof. by rewrite fold_left_app. Qed.

Lemma txnLoop_MaxOps docs :
  MaxOps (txnLoop docs) = fold_left Z.max (map olen docs) 0.
Proof.
  induction docs as [|d docs IH] using rev_ind; [done|].
  rewrite txnLoop_snoc, map_app. cbn [map]. rewrite fold_max_snoc.
  destruct (txnStep_fields (txnLoop docs) d) as (_ & _ & -> & _).
  by rewrite IH.
Qed.

Lemma countCode_snoc s codes x :
  countCode s (codes ++ [x]) = countCode s codes + (if Z.eqb s x then 1 else 0).
Proof.
  unfold countCode. rewrite List.filter_app. cbn [List.filter].
  destruct (Z.eqb s x); [apply len_snoc | rewrite app_nil_r; lia].
Qed.

Lemma countCode_bounds s codes : 0 <= countCode s codes <= len codes.
Proof.
  unfold countCode, len. pose proof (List.filter_length_le (Z.eqb s) codes). lia.
Qed.

(** The histogram after the loop: an entry for exactly the codes seen,
    holding how often each was seen. *)
Lemma txnLoop_States docs (s : Z) :
  len docs <= maxInt ->
  States (txnLoop docs) !! s =
    if Z.eqb (countCode s (map State docs)) 0 then None
    else Some (countCode s (map State docs)).
Proof.
  induction docs as [|d docs IH] using rev_ind; intros Hn; [done|].
  rewrite len_snoc in *. pose proof (len_nonneg docs). pose proof minInt_neg.
  rewrite txnLoop_snoc, map_app. cbn [map]. rewrite countCode_snoc.
  destruct (txnStep_fields (txnLoop docs) d) as (_ & _ & _ & ->).
  unfold mapIncr, mapIndex.
  pose proof (countCode_bounds s (map State docs)) as Hb.
  pose proof (countCode_bounds (State d) (map State docs)) as Hd.
  unfold len in Hb, Hd. rewrite length_map in Hb, Hd. fold (len docs) in Hb, Hd.
  destruct (Z.eqb_spec s (State d)) as [->|Hne].
  - rewrite lookup_insert_eq, IH by lia.
    destruct (Z.eqb_spec (countCode (State d) (map State docs)) 0) as [E|E].
    + rewrite E. cbn. rewrite add_small; [done | lia].
    + cbn [default from_option id]. rewrite add_small by lia.
      destruct (Z.eqb_spec (countCode (State d) (map State docs) + 1) 0); [lia|done].
  - rewrite lookup_insert_ne by done. rewrite IH by lia. by rewrite Z.add_0_r.
Qed.

Lemma sumValues_empty : sumValues ∅ = 0.
Proof. unfold sumValues. by rewrite map_fold_empty. Qed.

Lemma sumValues_insert_fresh (m : gmap Z Z) k v :
  m !! k = None -> sumValues (<[k := v]> m) = v + sumValues m.
Proof.
  intros H. unfold sumValues. rewrite map_fold_insert_L; [done| |done].
  intros. lia.
Qed.

Lemma sumValues_insert (m : gmap Z Z) k v :
  sumValues (<[k := v]> m) = v + sumValues m - default 0 (m !! k).
Proof.
  destruct (m !! k) as [old|] eqn:E; cbn.
  - rewrite <- (insert_delete_eq m k v).
    rewrite sumValues_insert_fresh by apply lookup_delete_eq.
    rewrite <- (insert_delete_id m k old E) at 2.
    rewrite sumValues_insert_fresh by apply lookup_delete_eq. lia.
  - rewrite sumValues_insert_fresh by done. lia.
Qed.

Lemma txnLoop_sumValues docs :
  len docs <= maxInt -> sumValues (States (txnLoop docs)) = len docs.
Proof.
  induction docs as [|d docs IH] using rev_ind; intros Hn.
  - apply sumValues_empty.
  - pose proof (txnLoop_States docs (State d)) as Hs.
    rewrite len_snoc in *. pose proof (len_nonneg docs). pose proof minInt_neg.
    rewrite txnLoop_snoc.
    destruct (txnStep_fields (txnLoop docs) d) as (_ & _ & _ & ->).
    unfold mapIncr, mapIndex. rewrite sumValues_insert, IH by lia.
    pose proof (countCode_bounds (State d) (map State docs)) as Hd.
    unfold len in Hd. rewrite length_map in Hd. fold (len docs) in Hd.
    rewrite Hs by lia.
    destruct (Z.eqb_spec (countCode (State d) (map State docs)) 0) as [E|E];
      cbn [default from_option id]; rewrite add_small by lia; lia.
Qed.

Lemma txnLoop_States_None docs (s : Z) :
  States (txnLoop docs) !! s = None <-> ~ In s (map State docs).
Proof.
  induction docs as [|d docs IH] using rev_ind.
  - cbn. split; [tauto | done].
  - rewrite txnLoop_snoc, map_app, in_app_iff. cbn [map In].
    destruct (txnStep_fields (txnLoop docs) d) as (_ & _ & _ & ->).
    unfold mapIncr. destruct (decide (State d = s)) as [->|Hne].
    + rewrite lookup_insert_eq. split; [done | tauto].
    + rewrite lookup_insert_ne by done. rewrite IH. tauto.
Qed.

(** C2. The statistics [getInProgressStats] returns for the documents a
    cursor streams, with state codes [codes] and operation-list lengths
    [os]: as long as their number fits Go's [int], [TotalTxns] is that
    number, the values of [States] sum to it, and the entry of every
    code is the number of documents carrying it (reading [States] at a
    code gives that number, zero for a code not seen); [TotalOps] is the
    sum of [os] as long as it fits; [MaxOps] is the largest of [os], and
    zero with no document. *)
Theorem getInProgressStats_reduces (c : Collection) :
  let codes := stateCodes c in
  let os := opsLengths c in
  let stats := fst (getInProgressStats c) in
  (len codes <= maxInt ->
     TotalTxns stats = len codes /\
     sumValues (States stats) = len codes /\
     (forall s, mapIndex (States stats) s = countCode s codes) /\
     (forall s v, States stats !! s = Some v -> v = countCode s codes)) /\
  (sumZ os <= maxInt -> TotalOps stats = sumZ os) /\
  (os = [] -> MaxOps stats = 0) /\
  (os <> [] -> isMax (MaxOps stats) os).
Proof.
  cbn zeta. rewrite getInProgressStats_fst, stateCodes_items, opsLengths_items.
  set (docs := items (Find_Iter decode_txnDoc c)).
  split; [|split; [|split]].
  - intros Hn. unfold len in Hn. rewrite length_map in Hn. fold (len docs) in Hn.
    split; [|split; [|split]].
    + rewrite txnLoop_TotalTxns by done. unfold len. by rewrite length_map.
    + rewrite txnLoop_sumValues by done. unfold len. by rewrite length_map.
    + intros s. unfold mapIndex. rewrite txnLoop_States by done.
      destruct (Z.eqb_spec (countCode s (map State docs)) 0) as [->|]; done.
    + intros s v. rewrite txnLoop_States by done.
      destruct (Z.eqb_spec (countCode s (map State docs)) 0); congruence.
  - apply txnLoop_TotalOps.
  - intros H. apply map_eq_nil in H. by rewrite H.
  - intros H. rewrite txnLoop_MaxOps.
    destruct (map olen docs) as [|q rest] eqn:E; [done|].
    cbn [fold_left]. assert (0 <= q) as Hq.
    { pose proof (olens_nonneg docs) as Hall. rewrite E in Hall.
      by apply Forall_cons in Hall as [? _]. }
    replace (Z.max 0 q) with q by lia. apply fold_max_isMax.
Qed.

(** The theorem at a transaction collection of two documents, in states
    1 and 6 with 2 and 3 operations. *)
Lemma twoTxns_statistics :
  let stats := fst (getInProgressStats twoTxns) in
  TotalTxns stats = 2 /\ sumValues (States stats) = 2 /\
  mapIndex (States stats) tpreparing = 1 /\
  mapIndex (States stats) tapplied = 1 /\
  mapIndex (States stats) tinvalid = 0 /\
  TotalOps stats = 5 /\ isMax (MaxOps stats) [2; 3].
Proof.
  destruct (getInProgressStats_reduces twoTxns) as (Hn & Hs & _ & Hx).
  destruct Hn as (Ht & Hv & Hi & _); [vm_compute; discriminate|].
  cbn zeta. rewrite Ht, Hv, !Hi, Hs by (vm_compute; discriminate).
  repeat split; try reflexivity. all: apply Hx; discriminate.
Defined.

(** The claim C3 as the specification words it fails where nothing is
    streamed: the histogram is empty, the state [invalid] has no entry. *)
Lemma allNamedStatesPresent_fails : ~ allNamedStatesPresent noTxns.
Proof.
  intros H. destruct (H tinvalid) as (v & Hv & _).
  - by left.
  - vm_compute in Hv. discriminate.
Qed.

(** C3, amended. The histogram [getInProgressStats] returns has an entry
    for a state code exactly when some streamed document carries that
    code; a state that no document carries (each of the seven named ones
    when nothing is streamed) has no entry, and reading the map there
    gives Go's zero default. *)
Theorem getInProgressStats_States_entries (c : Collection) (s : state) :
  let stats := fst (getInProgressStats c) in
  (is_Some (States stats !! s) <-> In s (stateCodes c)) /\
  (~ In s (stateCodes c) ->
     States stats !! s = None /\ mapIndex (States stats) s = 0).
Proof.
  cbn zeta. rewrite getInProgressStats_fst, stateCodes_items.
  set (docs := items (Find_Iter decode_txnDoc c)).
  pose proof (txnLoop_States_None docs s) as HN. split.
  - rewrite <- not_eq_None_Some. rewrite HN.
    destruct (in_dec Z.eq_dec s (map State docs)); tauto.
  - intros Hno. apply HN in Hno. unfold mapIndex. by rewrite Hno.
Qed.

(** The amended statement where nothing is streamed, at [applied]. *)
Lemma noTxns_has_no_entry :
  States (fst (getInProgressStats noTxns)) !! tapplied = None /\
  mapIndex (States (fst (getInProgressStats noTxns))) tapplied = 0.
Proof.
  apply (getInProgressStats_States_entries noTxns tapplied).
  cbn. tauto.
Defined.

End TransactionScanner.

(** ** The state renderer *)

Section StateString.

Lemma String_named :
  map String_ namedStates = stateNames.
Proof. reflexivity. Qed.

Lemma String_unknown (s : state) :
  ~ In s namedStates -> String_ s = "unknown state: " ++ fmt_d s.
Proof.
  intros H. unfold String_.
  repeat match goal with
  | |- context [Z.eqb s ?k] =>
      destruct (Z.eqb_spec s k) as [->|_];
      [exfalso; apply H; unfold namedStates; cbn; tauto|]
  end.
  reflexivity.
Qed.

Lemma unknown_not_named (text : string) :
  ~ In ("unknown state: " ++ text) stateNames.
Proof. cbn. intros H. repeat destruct H as [H|H]; try discriminate H; done. Qed.

Lemma fmt_d_samples :
  fmt_d 7 = "7" /\ fmt_d (-1) = "-1" /\ fmt_d 1024 = "1024" /\ fmt_d 0 = "0".
Proof. repeat split. Qed.

Lemma String_inj (s t : state) : String_ s = String_ t -> s = t.
Proof.
  destruct (in_dec Z.eq_dec s namedStates) as [Hs|Hs];
    destruct (in_dec Z.eq_dec t namedStates) as [Ht|Ht].
  - cbn in Hs, Ht.
    repeat destruct Hs as [<-|Hs]; try done;
      repeat destruct Ht as [<-|Ht]; try done; cbn; intros; discriminate.
  - rewrite (String_unknown t Ht). intros E. exfalso.
    apply (unknown_not_named (fmt_d t)). rewrite <- E, <- String_named.
    by apply in_map.
  - rewrite (String_unknown s Hs). intros E. exfalso.
    apply (unknown_not_named (fmt_d s)). rewrite E, <- String_named.
    by apply in_map.
  - rewrite (String_unknown s Hs), (String_unknown t Ht). intros E.
    cbn [String.append] in E. injection E as E. unfold fmt_d in E.
    by apply (inj pretty).
Qed.

(** C4. [String] is a total function of the integer code: the codes 0 to
    6 render as invalid, preparing, prepared, aborting, applying, aborted
    and applied; any other code renders as [unknown state: ] followed by
    its decimal digits, which is none of the seven names; equal codes
    render equally, and [MarshalText] gives the same text without error. *)
Theorem String_classifies :
  (String_ 0 = "invalid" /\ String_ 1 = "preparing" /\ String_ 2 = "prepared" /\
   String_ 3 = "aborting" /\ String_ 4 = "applying" /\ String_ 5 = "aborted" /\
   String_ 6 = "applied") /\
  (forall s : state, s < 0 \/ 6 < s ->
     String_ s = "unknown state: " ++ fmt_d s /\
     ~ In (String_ s) stateNames /\
     (forall n, In n namedStates -> String_ s <> String_ n)) /\
  (forall s t : state, s = t -> String_ s = String_ t) /\
  (forall s : state, MarshalText s = (String_ s, None)).
Proof.
  split; [repeat split|]. split; [|split; [congruence | done]].
  intros s Hs.
  assert (~ In s namedStates) as Hn.
  { unfold namedStates, tinvalid, tpreparing, tprepared, taborting, tapplying,
      taborted, tapplied. cbn. lia. }
  split; [by apply String_unknown|]. split.
  - rewrite String_unknown by done. apply unknown_not_named.
  - intros n Hin E. apply String_inj in E. by subst.
Qed.

(** The theorem at the codes 7 and -1. *)
Lemma unknown_codes_rendered :
  String_ 7 = "unknown state: 7" /\ String_ (-1) = "unknown state: -1".
Proof.
  destruct String_classifies as (_ & H & _).
  split.
  - apply (H 7). right. reflexivity.
  - apply (H (-1)). left. reflexivity.
Defined.

End StateString.

(** ** The run: starting the units *)

Section Units.

Variable db : Database.

Lemma getCollectionStats_snd c :
  snd (getCollectionStats c) =
  match iterErr c with
  | Some err => Some (errgo.Notef err
      ("iteraction over collection " ++ fmt.Quote (Name c) ++ " failed"))
  | None => None
  end.
Proof. unfold getCollectionStats. cbn. by destruct (iterErr c). Qed.

Lemma scanError_eq name :
  scanError db name =
  match snd (getCollectionStats (C db name)) with
  | Some err => Some (errgo.Notef err
      ("cannot gather stats on " ++ name ++ ": " ++ err))
  | None => None
  end.
Proof.
  unfold scanError, collUnit.
  destruct (getCollectionStats (C db name)) as [st [e|]]; done.
Qed.

Lemma scanError_None name :
  scanError db name = None <-> iterErr (C db name) = None.
Proof.
  rewrite scanError_eq, getCollectionStats_snd.
  destruct (iterErr (C db name)); split; done.
Qed.

Lemma collUnit_snd i name cs : snd (collUnit db i name cs) = scanError db name.
Proof.
  unfold scanError, collUnit.
  destruct (getCollectionStats (C db name)) as [st [e|]]; done.
Qed.

Lemma collUnit_fst i name cs :
  fst (collUnit db i name cs) =
  match scanError db name with
  | Some _ => cs
  | None => <[i := scanned db name]> cs
  end.
Proof.
  unfold scanError, scanned, collUnit.
  destruct (getCollectionStats (C db name)) as [st [e|]]; done.
Qed.

Lemma Do_eq {V} r (f : V -> V * option error) (v : V) :
  parallel.Do r f v =
  (fst (f v),
   {| parallel.maxPar := parallel.maxPar r;
      parallel.done := (parallel.done r ++ option_list (snd (f v)))%list |}).
Proof.
  unfold parallel.Do. destruct (f v) as [v' [e|]]; cbn; [done|].
  rewrite app_nil_r. by destruct r.
Qed.

Lemma Do_collUnit r i name cs :
  parallel.Do r (collUnit db i name) cs =
  (fst (collUnit db i name cs),
   {| parallel.maxPar := parallel.maxPar r;
      parallel.done := (parallel.done r ++ option_list (scanError db name))%list |}).
Proof. by rewrite Do_eq, collUnit_snd. Qed.

Lemma startScans_done names : forall i cs r,
  parallel.done (snd (startScans db i names (cs, r))) =
  (parallel.done r ++ omap (scanError db) (List.filter wantCollectionStats names))%list.
Proof.
  induction names as [|n names IH]; intros i cs r; cbn [startScans List.filter].
  - cbn. by rewrite app_nil_r.
  - destruct (wantCollectionStats n) eqn:W; cbn [negb].
    + cbn [fst snd]. rewrite Do_collUnit, IH. cbn [parallel.done omap].
      rewrite <- app_assoc. f_equal. cbn. by destruct (scanError db n).
    + apply IH.
Qed.

Lemma startScans_length names : forall i cs r,
  length (fst (startScans db i names (cs, r))) = length cs.
Proof.
  induction names as [|n names IH]; intros i cs r; cbn [startScans]; [done|].
  destruct (wantCollectionStats n); cbn [negb]; [|apply IH].
  cbn [fst snd]. rewrite Do_collUnit, IH, collUnit_fst.
  destruct (scanError db n); [done | apply length_insert].
Qed.

Lemma startScans_before names : forall i cs r k,
  (k < i)%nat -> fst (startScans db i names (cs, r)) !! k = cs !! k.
Proof.
  induction names as [|n names IH]; intros i cs r k Hk; cbn [startScans]; [done|].
  destruct (wantCollectionStats n); cbn [negb]; [|apply IH; lia].
  cbn [fst snd]. rewrite Do_collUnit, IH, collUnit_fst by lia.
  destruct (scanError db n); [done|]. apply list_lookup_insert_ne. lia.
Qed.

(** The slot of a wanted name whose scan succeeded holds its statistics. *)
Lemma startScans_slot names : forall i cs r j n,
  names !! j = Some n -> wantCollectionStats n = true ->
  scanError db n = None -> (i + j < length cs)%nat ->
  fst (startScans db i names (cs, r)) !! (i + j)%nat = Some (scanned db n).
Proof.
  induction names as [|m names IH]; intros i cs r j n Hj Hw He Hlen; [done|].
  cbn [startScans]. destruct j as [|j]; cbn in Hj.
  - injection Hj as ->. rewrite Hw. cbn [negb fst snd].
    rewrite Do_collUnit, startScans_before by lia.
    rewrite collUnit_fst, He, Nat.add_0_r.
    apply list_lookup_insert_eq. lia.
  - replace (i + S j)%nat with (S i + j)%nat by lia.
    destruct (wantCollectionStats m); cbn [negb fst snd].
    + rewrite Do_collUnit. apply IH; try done.
      rewrite collUnit_fst. destruct (scanError db m);
        [|rewrite length_insert]; lia.
    + apply IH; try done. lia.
Qed.

End Units.

(** ** The run: waiting and merging *)

Section Gather.

Variable w : World.
Variable db : Database.

Lemma logUnit_snd st : snd (logUnit db st) = logError db.
Proof.
  unfold logError, logUnit.
  destruct (getLogStats (C db "txns.log")) as [l [e|]]; done.
Qed.

Lemma inProgressUnit_snd st : snd (inProgressUnit db st) = inProgressError db.
Proof.
  unfold inProgressError, inProgressUnit.
  destruct (getInProgressStats (C db "txns")) as [l [e|]]; done.
Qed.

Lemma logUnit_Collections st :
  Collections (fst (logUnit db st)) = Collections st.
Proof.
  unfold logUnit. destruct (getLogStats (C db "txns.log")) as [l [e|]]; done.
Qed.

Lemma inProgressUnit_Collections st :
  Collections (fst (inProgressUnit db st)) = Collections st.
Proof.
  unfold inProgressUnit.
  destruct (getInProgressStats (C db "txns")) as [l [e|]]; done.
Qed.

Lemma headerStats_Collections : Collections (headerStats db) = ∅.
Proof.
  unfold headerStats. by rewrite inProgressUnit_Collections, logUnit_Collections.
Qed.

(** [gather] in one equation: the errors of the units that failed, as
    they arrive, decide between the fatal exit and the report. *)
Lemma gather_eq names :
  gather w db names =
  match arrival w (launchErrors db (sort_Strings names)) with
  | [] => [EvStdout (mergeScans (scanSlots db (sort_Strings names)) 0
                       (sort_Strings names) (headerStats db));
           EvExit 0]
  | errs => log_Fatal (parallel.Errors_Error errs)
  end.
Proof.
  unfold gather, scanSlots, headerStats, launchErrors.
  set (sorted := sort_Strings names).
  pose proof (startScans_done db sorted 0
    (replicate (length sorted) zeroCollectionStats) (parallel.NewRun 10)) as Hd.
  destruct (startScans db 0 sorted _) as [cs r]. cbn [fst snd] in *.
  cbn [parallel.NewRun parallel.done app] in Hd.
  fold emptyStats. rewrite !Do_eq. cbn [fst snd parallel.done].
  rewrite logUnit_snd, inProgressUnit_snd, Hd, <- app_assoc.
  unfold parallel.Wait. cbn [parallel.done].
  by destruct (arrival w _).
Qed.

Lemma omap_nil_inv {A B} (f : A -> option B) l x :
  omap f l = [] -> In x l -> f x = None.
Proof.
  induction l as [|y l IH]; cbn; [done|].
  destruct (f y) eqn:E; [done|]. intros Hl [->|Hin]; auto.
Qed.

Lemma launchErrors_nil names :
  launchErrors db names = [] ->
  (forall n, In n names -> wantCollectionStats n = true -> scanError db n = None)
  /\ logError db = None /\ inProgressError db = None.
Proof.
  unfold launchErrors. intros H.
  apply app_eq_nil in H as [H1 H2]. apply app_eq_nil in H2 as [H2 H3].
  split; [|split].
  - intros n Hin Hw. apply (omap_nil_inv _ _ _ H1).
    apply List.filter_In. by split.
  - by destruct (logError db).
  - by destruct (inProgressError db).
Qed.

Lemma In_sort_Strings n names : In n (sort_Strings names) <-> In n names.
Proof.
  unfold sort_Strings. rewrite <- !list_elem_of_In.
  by rewrite merge_sort_Permutation.
Qed.

Lemma scanSlots_length sorted : length (scanSlots db sorted) = length sorted.
Proof. unfold scanSlots. by rewrite startScans_length, length_replicate. Qed.

(** Every index the last loop reads is inside the slots. *)
Lemma startScans_length_all sorted i :
  (i < length sorted)%nat -> is_Some (scanSlots db sorted !! i).
Proof. intros H. apply lookup_lt_is_Some. by rewrite scanSlots_length. Qed.

Lemma scanSlots_slot sorted j n :
  sorted !! j = Some n -> wantCollectionStats n = true ->
  scanError db n = None -> slot (scanSlots db sorted) j = scanned db n.
Proof.
  intros Hj Hw He. unfold slot, scanSlots.
  rewrite (startScans_slot db sorted 0 _ _ j n Hj Hw He); [done|].
  rewrite length_replicate. cbn. by apply lookup_lt_Some in Hj.
Qed.

End Gather.

Section Merge.

Variable db : Database.
Variable cs : list CollectionStats.

Lemma mergeScans_InProgress_Log names : forall i st,
  InProgress (mergeScans cs i names st) = InProgress st /\
  Log (mergeScans cs i names st) = Log st.
Proof.
  induction names as [|n names IH]; intros i st; cbn [mergeScans]; [done|].
  destruct (wantCollectionStats n); cbn [negb]; [|apply IH].
  destruct (Z.gtb _ 0); [|apply IH].
  destruct (IH (S i) (set_Collections
    (<[n := slot cs i]> (Collections st)) st)) as [-> ->]. done.
Qed.

(** A name that is not wanted never becomes a key. *)
Lemma mergeScans_unwanted names k : forall i st,
  wantCollectionStats k = false ->
  Collections (mergeScans cs i names st) !! k = Collections st !! k.
Proof.
  induction names as [|n names IH]; intros i st Hk; cbn [mergeScans]; [done|].
  destruct (wantCollectionStats n) eqn:Hn; cbn [negb]; [|by apply IH].
  destruct (Z.gtb _ 0); [|by apply IH].
  rewrite IH by done. cbn. apply lookup_insert_ne. congruence.
Qed.

(** Where the slots hold the scans of the wanted names: a key that is
    not a wanted name with something queued is left as it was. *)
Lemma mergeScans_skip names k : forall i st,
  (forall j n, names !! j = Some n -> wantCollectionStats n = true ->
               slot cs (i + j) = scanned db n) ->
  ~ (In k names /\ wantCollectionStats k = true /\
     0 < TotalQueued (scanned db k)) ->
  Collections (mergeScans cs i names st) !! k = Collections st !! k.
Proof.
  induction names as [|n names IH]; intros i st Hs Hk; cbn [mergeScans]; [done|].
  assert (forall j m, names !! j = Some m -> wantCollectionStats m = true ->
                      slot cs (S i + j) = scanned db m) as Hs'.
  { intros j m Hj Hm. replace (S i + j)%nat with (i + S j)%nat by lia.
    by apply Hs. }
  assert (~ (In k names /\ wantCollectionStats k = true /\
             0 < TotalQueued (scanned db k))) as Hk'.
  { intros (? & ? & ?). apply Hk. cbn. tauto. }
  destruct (wantCollectionStats n) eqn:Hn; cbn [negb]; [|by apply IH].
  destruct (Z.gtb_spec (TotalQueued (slot cs i)) 0) as [Hpos|Hpos];
    [|by apply IH].
  rewrite IH by done. cbn. apply lookup_insert_ne. intros ->.
  apply Hk. split; [by left|]. split; [done|].
  rewrite <- (Hs 0%nat k eq_refl Hn), Nat.add_0_r. lia.
Qed.

(** A wanted name with something queued is a key, bound to its scan. *)
Lemma mergeScans_keep names k : forall i st,
  (forall j n, names !! j = Some n -> wantCollectionStats n = true ->
               slot cs (i + j) = scanned db n) ->
  In k names -> wantCollectionStats k = true ->
  0 < TotalQueued (scanned db k) ->
  Collections (mergeScans cs i names st) !! k = Some (scanned db k).
Proof.
  induction names as [|n names IH]; intros i st Hs Hin Hw Hq; [done|].
  assert (forall j m, names !! j = Some m -> wantCollectionStats m = true ->
                      slot cs (S i + j) = scanned db m) as Hs'.
  { intros j m Hj Hm. replace (S i + j)%nat with (i + S j)%nat by lia.
    by apply Hs. }
  cbn [mergeScans].
  destruct (in_dec string_dec k names) as [Hin'|Hout].
  { destruct (wantCollectionStats n); cbn [negb]; [|by apply IH].
    destruct (Z.gtb _ 0); by apply IH. }
  destruct Hin as [->|Hin']; [|done].
  pose proof (Hs 0%nat k eq_refl Hw) as H0. rewrite Nat.add_0_r in H0.
  rewrite Hw. cbn [negb]. rewrite H0.
  destruct (Z.gtb_spec (TotalQueued (scanned db k)) 0) as [_|Hle]; [|lia].
  rewrite (mergeScans_skip names k (S i) _ Hs') by tauto.
  cbn. apply lookup_insert_eq.
Qed.

End Merge.

(** ** main *)

Section Main.

Variable w : World.

Lemma main_eq osArgs args session names :
  commandLine osArgs = inl args ->
  DialWithInfo w (dialInfo args) = Ok session ->
  CollectionNames (DB session "juju") = Ok names ->
  main w osArgs = EvDial (dialInfo args) :: gather w (DB session "juju") names.
Proof. intros Hc Hd Hn. unfold main, dial. by rewrite Hc, Hd, Hn. Qed.

Lemma commandLine_exit osArgs exit :
  commandLine osArgs = inr exit ->
  exists first, exit = [first; EvExit 2] /\
                (forall info, first <> EvDial info) /\
                (forall stats, first <> EvStdout stats).
Proof.
  unfold commandLine. destruct (flag.Parse flags osArgs flagDefaults) as [a|e].
  - destruct (_ && _); [|done]. intros [= <-]. eexists. split; [done|]. done.
  - intros [= <-]. eexists. split; [done|]. done.
Qed.

(** A report on the standard output means: the command line was
    accepted, the dial and the listing succeeded, and no error arrived. *)
Lemma main_report_inv osArgs stats :
  In (EvStdout stats) (main w osArgs) ->
  exists args session names,
    commandLine osArgs = inl args /\
    DialWithInfo w (dialInfo args) = Ok session /\
    CollectionNames (DB session "juju") = Ok names /\
    arrival w (launchErrors (DB session "juju") (sort_Strings names)) = [] /\
    stats = mergeScans (scanSlots (DB session "juju") (sort_Strings names)) 0
              (sort_Strings names) (headerStats (DB session "juju")).
Proof.
  unfold main, dial.
  destruct (commandLine osArgs) as [args|exit] eqn:Hc.
  2:{ destruct (commandLine_exit _ _ Hc) as (first & -> & _ & Hf).
      cbn. intros [H|[H|[]]]; [by destruct (Hf stats) | done]. }
  destruct (DialWithInfo w (dialInfo args)) as [session|e] eqn:Hd.
  2:{ cbn. intros [H|[H|[H|[]]]]; done. }
  destruct (CollectionNames (DB session "juju")) as [names|e] eqn:Hn.
  2:{ cbn. intros [H|[H|[H|[]]]]; done. }
  rewrite gather_eq. intros [H|H]; [done|].
  exists args, session, names. repeat split; try done.
  - destruct (arrival w _); [done|]. cbn in H. by destruct H as [H|[H|[]]].
  - destruct (arrival w _); cbn in H.
    + destruct H as [H|[H|[]]]; [congruence | done].
    + by destruct H as [H|[H|[]]].
Qed.

(** The same, for a run whose command line, session and listing are
    known. *)
Lemma main_report_known osArgs args session names stats :
  commandLine osArgs = inl args ->
  DialWithInfo w (dialInfo args) = Ok session ->
  CollectionNames (DB session "juju") = Ok names ->
  In (EvStdout stats) (main w osArgs) ->
  arrival w (launchErrors (DB session "juju") (sort_Strings names)) = [] /\
  stats = mergeScans (scanSlots (DB session "juju") (sort_Strings names)) 0
            (sort_Strings names) (headerStats (DB session "juju")).
Proof.
  intros Hc Hd Hn Hr.
  destruct (main_report_inv osArgs stats Hr)
    as (args' & session' & names' & Hc' & Hd' & Hn' & Harr & ->).
  rewrite Hc in Hc'. injection Hc' as <-.
  rewrite Hd in Hd'. injection Hd' as <-.
  rewrite Hn in Hn'. injection Hn' as <-. done.
Qed.

(** When no error arrived and none was lost, no unit failed, and every
    slot of a wanted name holds the statistics of its scan. *)
Lemma quiet_run_slots db sorted :
  faithful w -> arrival w (launchErrors db sorted) = [] ->
  (forall j n, sorted !! j = Some n -> wantCollectionStats n = true ->
     slot (scanSlots db sorted) (0 + j) = scanned db n) /\
  logError db = None /\ inProgressError db = None.
Proof.
  intros Hf Harr.
  assert (launchErrors db sorted = []) as Hnil.
  { pose proof (Hf (launchErrors db sorted)) as Hp. rewrite Harr in Hp.
    by apply Permutation_nil in Hp. }
  apply launchErrors_nil in Hnil as (Hscan & Hlog & Htxn).
  split; [|done]. intros j n Hj Hwn. cbn. apply scanSlots_slot; [done|done|].
  apply Hscan; [|done]. apply list_elem_of_In, list_elem_of_lookup. eauto.
Qed.

End Main.

(** ** Failing units *)

Section Failures.

Lemma str_app_cons x (a b : string) : String x a ++ b = String x (a ++ b).
Proof. reflexivity. Qed.

Lemma str_app_assoc (a b c : string) : (a ++ b) ++ c = a ++ b ++ c.
Proof.
  induction a as [|x a IH]; [done|]. rewrite !str_app_cons. by f_equal.
Qed.

Lemma mentions_app_r text name more :
  mentions text name -> mentions (text ++ more) name.
Proof.
  intros (b & a & ->). exists b, (a ++ more).
  by rewrite !str_app_assoc.
Qed.

Lemma mentions_Errors_Error e more name :
  mentions e name -> mentions (parallel.Errors_Error (e :: more)) name.
Proof.
  intros H. unfold parallel.Errors_Error.
  destruct more; [done | by apply mentions_app_r].
Qed.

Variable db : Database.

Lemma scanError_mentions name e : scanError db name = Some e -> mentions e name.
Proof.
  rewrite scanError_eq.
  destruct (snd (getCollectionStats (C db name))) as [err|]; [|done].
  intros [= <-]. unfold errgo.Notef.
  exists "cannot gather stats on ", ((": " ++ err) ++ ": " ++ err).
  by rewrite !str_app_assoc.
Qed.

Lemma logError_eq :
  logError db =
  match countResult (C db "txns.log") with
  | Err err => Some ("cannot count items in collection " ++
                     String fmt.dquote ("txns.log" ++
                       String fmt.dquote (": " ++ err)))
  | Ok _ => None
  end.
Proof.
  unfold logError, logUnit, getLogStats.
  destruct (countResult (C db "txns.log")); reflexivity.
Qed.

Lemma inProgressError_eq :
  inProgressError db =
  match iterErr (C db "txns") with
  | Some err => Some ("iteraction over collection " ++
                      String fmt.dquote ("txns" ++
                        String fmt.dquote (" failed: " ++ err)))
  | None => None
  end.
Proof.
  unfold inProgressError, inProgressUnit, getInProgressStats, Find_Iter, C.
  cbn [Err_ iterErr Name].
  destruct (st_iterErr (stored db "txns")); reflexivity.
Qed.

Lemma unitFails_launchErrors names coll :
  unitFails db names coll -> launchErrors db names <> [].
Proof.
  unfold launchErrors. intros [(Hin & Hw & He)|[(-> & e & He)|(-> & He)]] Hnil;
    apply app_eq_nil in Hnil as [H1 H2]; apply app_eq_nil in H2 as [H2 H3].
  - assert (scanError db coll = None) as Hs.
    { apply (omap_nil_inv _ _ _ H1). apply List.filter_In. by split. }
    apply scanError_None in Hs. rewrite Hs in He. by destruct He.
  - rewrite logError_eq, He in H2. done.
  - rewrite inProgressError_eq in H3. destruct He as [e He].
    rewrite He in H3. done.
Qed.

(** Every error of the run is the error of a failing unit and carries
    the name of that unit's collection. *)
Lemma launchErrors_culprit names e :
  In e (launchErrors db names) ->
  exists culprit, unitFails db names culprit /\ mentions e culprit.
Proof.
  unfold launchErrors. rewrite !in_app_iff.
  intros [H|[H|H]].
  - apply list_elem_of_In, list_elem_of_omap in H as (n & Hn & He).
    apply list_elem_of_In, List.filter_In in Hn as [Hin Hw].
    exists n. split; [|by apply scanError_mentions].
    left. split; [done|]. split; [done|].
    destruct (iterErr (C db n)) eqn:E; [done|].
    apply scanError_None in E. congruence.
  - exists "txns.log". rewrite logError_eq in H.
    destruct (countResult (C db "txns.log")) as [n|err] eqn:E; [done|].
    destruct H as [<-|[]]. split.
    + right. left. eauto.
    + exists ("cannot count items in collection " ++ String fmt.dquote ""),
        (String fmt.dquote (": " ++ err)). reflexivity.
  - exists "txns". rewrite inProgressError_eq in H.
    destruct (iterErr (C db "txns")) as [err|] eqn:E; [|done].
    destruct H as [<-|[]]. split.
    + right. right. done.
    + exists ("iteraction over collection " ++ String fmt.dquote ""),
        (String fmt.dquote (" failed: " ++ err)). reflexivity.
Qed.

Lemma unitFails_sorted names coll :
  unitFails db (sort_Strings names) coll <-> unitFails db names coll.
Proof. unfold unitFails. by rewrite In_sort_Strings. Qed.

(** With a failing unit the run ends in [log.Fatal] on the first error
    that arrived, which is the error of some failing unit. *)
Lemma gather_fatal w names coll :
  faithful w -> unitFails db names coll ->
  exists e more culprit,
    gather w db names = log_Fatal (parallel.Errors_Error (e :: more)) /\
    unitFails db names culprit /\ mentions e culprit.
Proof.
  intros Hf Hu. apply unitFails_sorted, unitFails_launchErrors in Hu.
  rewrite gather_eq. pose proof (Hf (launchErrors db (sort_Strings names))) as Hp.
  destruct (arrival w _) as [|e more].
  - by apply Permutation_nil in Hp.
  - assert (In e (launchErrors db (sort_Strings names))) as Hin.
    { apply (Permutation_in _ Hp). by left. }
    destruct (launchErrors_culprit _ _ Hin) as (culprit & Hc & Hm).
    exists e, more, culprit. split; [done|]. split; [|done].
    by apply unitFails_sorted.
Qed.

End Failures.

(** ** The properties of a run *)

Section Run.

Lemma sampleWorld_faithful fail : faithful (sampleWorld fail).
Proof. intros errs. cbn. symmetry. apply Permutation_rev. Qed.

(** C5. When a unit of the run fails (the cursor over a scanned
    collection or over the transactions reports an error, or the count of
    the log does), all that [main] does after dialling is to write an
    error and exit with status 1: the error is the first that arrived, it
    is the error of a failing unit and contains the name of that unit's
    collection, and no report is written. *)
Theorem scan_failure_is_fatal (w : World) (osArgs : list string)
    (args : commandLineArgs) (session : Session) (names : list string)
    (coll : string) :
  commandLine osArgs = inl args ->
  DialWithInfo w (dialInfo args) = Ok session ->
  CollectionNames (DB session "juju") = Ok names ->
  faithful w ->
  unitFails (DB session "juju") names coll ->
  exists e more culprit,
    main w osArgs =
      [EvDial (dialInfo args); EvStderr (parallel.Errors_Error (e :: more));
       EvExit 1] /\
    unitFails (DB session "juju") names culprit /\
    mentions e culprit /\
    mentions (parallel.Errors_Error (e :: more)) culprit /\
    ((forall other, unitFails (DB session "juju") names other -> other = coll) ->
     mentions (parallel.Errors_Error (e :: more)) coll) /\
    reportOf (main w osArgs) = None /\
    exitStatus (main w osArgs) = Some 1 /\
    (forall stats, ~ In (EvStdout stats) (main w osArgs)).
Proof.
  intros Hc Hd Hn Hf Hu.
  destruct (gather_fatal (DB session "juju") w names coll Hf Hu)
    as (e & more & culprit & Hg & Hcu & Hm).
  exists e, more, culprit.
  rewrite (main_eq w osArgs args session names Hc Hd Hn), Hg.
  split; [done|]. split; [done|]. split; [done|].
  split; [by apply mentions_Errors_Error|].
  split; [intros Honly; rewrite <- (Honly culprit Hcu);
          by apply mentions_Errors_Error|].
  split; [done|]. split; [done|].
  intros stats [H|[H|[H|[]]]]; done.
Qed.

(** The theorem where the cursor over "charms" breaks off. *)
Lemma broken_charms_cursor_is_fatal :
  exists e more culprit,
    main (sampleWorld (Some "EOF")) sampleArgs =
      [EvDial (dialInfo sampleParsed);
       EvStderr (parallel.Errors_Error (e :: more)); EvExit 1] /\
    unitFails (sampleDB (Some "EOF"))
      ["txns"; "system.indexes"; "idle"; "txns.log"; "charms"] culprit /\
    mentions e culprit /\
    mentions (parallel.Errors_Error (e :: more)) culprit /\
    ((forall other,
        unitFails (sampleDB (Some "EOF"))
          ["txns"; "system.indexes"; "idle"; "txns.log"; "charms"] other ->
        other = "charms") ->
     mentions (parallel.Errors_Error (e :: more)) "charms") /\
    reportOf (main (sampleWorld (Some "EOF")) sampleArgs) = None /\
    exitStatus (main (sampleWorld (Some "EOF")) sampleArgs) = Some 1 /\
    (forall stats,
       ~ In (EvStdout stats) (main (sampleWorld (Some "EOF")) sampleArgs)).
Proof.
  apply (scan_failure_is_fatal (sampleWorld (Some "EOF")) sampleArgs
           sampleParsed (sampleSession (Some "EOF"))
           ["txns"; "system.indexes"; "idle"; "txns.log"; "charms"] "charms").
  - reflexivity.
  - reflexivity.
  - reflexivity.
  - apply sampleWorld_faithful.
  - left. split; [cbn; tauto|]. split; [reflexivity|]. by eexists.
Defined.

(** C6. Whatever the database holds, the per-collection map of a report
    that [main] writes has no key "txns" and no key that starts with
    "system.": [wantCollectionStats] rejects these names, in the loop
    that starts the scans and in the loop that fills the map. *)
Theorem report_omits_txns_and_system (w : World) (osArgs : list string)
    (stats : Stats) (name : string) :
  In (EvStdout stats) (main w osArgs) ->
  name = "txns" \/ HasPrefix name "system." = true ->
  wantCollectionStats name = false /\ Collections stats !! name = None.
Proof.
  intros Hr Hname.
  assert (wantCollectionStats name = false) as Hw.
  { unfold wantCollectionStats. destruct Hname as [-> | ->]; [done|].
    by rewrite andb_false_r. }
  split; [done|].
  destruct (main_report_inv w osArgs stats Hr)
    as (args & session & names & _ & _ & _ & _ & ->).
  rewrite mergeScans_unwanted by done.
  by rewrite headerStats_Collections.
Qed.

(** The theorem at the sample server, which lists "system.indexes". *)
Lemma sample_report_without_system_indexes :
  wantCollectionStats "system.indexes" = false /\
  Collections sampleReport !! "system.indexes" = None.
Proof.
  apply (report_omits_txns_and_system (sampleWorld None) sampleArgs).
  - vm_compute. right. left. reflexivity.
  - right. reflexivity.
Defined.

(** C7. In a run that writes a report, a listed collection that is
    wanted is a key of the per-collection map exactly when the
    [TotalQueued] its scan computed is above zero, and is then bound to
    the statistics of that scan; with [TotalQueued] zero it is absent. *)
Theorem report_keeps_exactly_the_queued (w : World) (osArgs : list string)
    (args : commandLineArgs) (session : Session) (names : list string)
    (stats : Stats) (name : string) :
  commandLine osArgs = inl args ->
  DialWithInfo w (dialInfo args) = Ok session ->
  CollectionNames (DB session "juju") = Ok names ->
  faithful w ->
  In (EvStdout stats) (main w osArgs) ->
  In name names -> wantCollectionStats name = true ->
  let computed := scanned (DB session "juju") name in
  (is_Some (Collections stats !! name) <-> 0 < TotalQueued computed) /\
  (0 < TotalQueued computed -> Collections stats !! name = Some computed) /\
  (TotalQueued computed = 0 -> Collections stats !! name = None).
Proof.
  intros Hc Hd Hn Hf Hr Hin Hw computed.
  destruct (main_report_known w osArgs args session names stats Hc Hd Hn Hr)
    as [Harr ->].
  set (db := DB session "juju") in *. set (sorted := sort_Strings names) in *.
  destruct (quiet_run_slots w db sorted Hf Harr) as (Hslots & _ & _).
  assert (In name sorted) as Hin' by by apply In_sort_Strings.
  assert (0 < TotalQueued computed ->
          Collections (mergeScans (scanSlots db sorted) 0 sorted (headerStats db))
            !! name = Some computed) as Hkeep.
  { intros Hq. by apply (mergeScans_keep db). }
  assert (~ 0 < TotalQueued computed ->
          Collections (mergeScans (scanSlots db sorted) 0 sorted (headerStats db))
            !! name = None) as Hskip.
  { intros Hq. rewrite (mergeScans_skip db) by (done || tauto).
    by rewrite headerStats_Collections. }
  split; [|split].
  - split.
    + intros Hs. destruct (Z_lt_dec 0 (TotalQueued computed)) as [|Hno]; [done|].
      rewrite (Hskip Hno) in Hs. by destruct Hs.
    + intros Hq. rewrite (Hkeep Hq). by eexists.
  - done.
  - intros Hz. apply Hskip. lia.
Qed.

Lemma sampleReport_written :
  In (EvStdout sampleReport) (main (sampleWorld None) sampleArgs).
Proof. vm_compute. right. left. reflexivity. Qed.

(** The theorem at the sample server: "charms" has three tokens queued,
    "idle" is listed and scanned but has none. *)
Lemma sample_report_charms_and_idle :
  Collections sampleReport !! "charms" = Some (scanned (sampleDB None) "charms")
  /\ Collections sampleReport !! "idle" = None.
Proof.
  split.
  - apply (report_keeps_exactly_the_queued (sampleWorld None) sampleArgs
             sampleParsed (sampleSession None)
             ["txns"; "system.indexes"; "idle"; "txns.log"; "charms"]
             sampleReport "charms");
      [reflexivity | reflexivity | reflexivity | apply sampleWorld_faithful
      | apply sampleReport_written | cbn; tauto | reflexivity | reflexivity].
  - apply (report_keeps_exactly_the_queued (sampleWorld None) sampleArgs
             sampleParsed (sampleSession None)
             ["txns"; "system.indexes"; "idle"; "txns.log"; "charms"]
             sampleReport "idle");
      [reflexivity | reflexivity | reflexivity | apply sampleWorld_faithful
      | apply sampleReport_written | cbn; tauto | reflexivity | reflexivity].
Defined.

(** C9. The name "txns.log" is wanted. When it is listed, it is scanned
    like any other collection: an error of its cursor fails the run, and
    in a run that writes a report the log count is the answer of
    [Count()] while the per-collection map binds "txns.log" to the
    statistics of its scan whenever their [TotalQueued] is above zero. *)
Theorem txns_log_is_scanned_too (w : World) (osArgs : list string)
    (args : commandLineArgs) (session : Session) (names : list string) :
  commandLine osArgs = inl args ->
  DialWithInfo w (dialInfo args) = Ok session ->
  CollectionNames (DB session "juju") = Ok names ->
  faithful w ->
  In "txns.log" names ->
  let db := DB session "juju" in
  wantCollectionStats "txns.log" = true /\
  (is_Some (iterErr (C db "txns.log")) ->
     forall stats, ~ In (EvStdout stats) (main w osArgs)) /\
  (forall stats, In (EvStdout stats) (main w osArgs) ->
     countResult (C db "txns.log") = Ok (LogDocCount (Log stats)) /\
     (0 < TotalQueued (scanned db "txns.log") ->
        Collections stats !! "txns.log" = Some (scanned db "txns.log"))).
Proof.
  intros Hc Hd Hn Hf Hin db. subst db. set (db := DB session "juju").
  split; [done|]. split.
  - intros He stats.
    assert (unitFails db names "txns.log") as Hu by (left; done).
    destruct (gather_fatal db w names _ Hf Hu) as (e & more & _ & Hg & _).
    rewrite (main_eq w osArgs args session names Hc Hd Hn). fold db.
    rewrite Hg. intros [H|[H|[H|[]]]]; done.
  - intros stats Hr.
    destruct (main_report_known w osArgs args session names stats Hc Hd Hn Hr)
      as [Harr ->].
    fold db in Harr |- *. set (sorted := sort_Strings names) in *.
    destruct (quiet_run_slots w db sorted Hf Harr) as (Hslots & Hlog & _).
    split.
    + destruct (mergeScans_InProgress_Log (scanSlots db sorted) sorted 0
                  (headerStats db)) as [_ ->].
      unfold headerStats.
      unfold logError, logUnit, getLogStats in Hlog.
      unfold inProgressUnit at 1.
      destruct (getInProgressStats (C db "txns")) as [ips [e|]];
        unfold logUnit, getLogStats;
        destruct (countResult (C db "txns.log")); done.
    + intros Hq. apply (mergeScans_keep db); try done.
      by apply In_sort_Strings.
Qed.

(** The theorem at the sample server, whose log holds one document with
    a token queued and answers 7 to the count. *)
Lemma sample_report_lists_the_log :
  LogDocCount (Log sampleReport) = 7 /\
  Collections sampleReport !! "txns.log"
  = Some (scanned (sampleDB None) "txns.log").
Proof.
  destruct (txns_log_is_scanned_too (sampleWorld None) sampleArgs
              sampleParsed (sampleSession None)
              ["txns"; "system.indexes"; "idle"; "txns.log"; "charms"])
    as (_ & _ & H);
    [reflexivity | reflexivity | reflexivity | apply sampleWorld_faithful
    | cbn; tauto |].
  destruct (H sampleReport sampleReport_written) as [Hcount Hkey].
  split; [|apply Hkey; reflexivity].
  apply (f_equal (fun r => match r with Ok n => n | Err _ => 0 end)) in Hcount.
  symmetry. exact Hcount.
Defined.

(** C8. When the parsed flags hold a user name and no password,
    [main] writes the complaint to the standard error and exits with
    status 2; it never dials. *)
Theorem username_without_password_exits (w : World) (osArgs : list string)
    (a : commandLineArgs) :
  flag.Parse flags osArgs flagDefaults = inl a ->
  username a <> "" -> password a = "" ->
  main w osArgs = [EvStderr passwordMessage; EvExit 2] /\
  exitStatus (main w osArgs) = Some 2 /\
  reportOf (main w osArgs) = None /\
  (forall info, ~ In (EvDial info) (main w osArgs)).
Proof.
  intros Hp Hu Hpw.
  assert (main w osArgs = [EvStderr passwordMessage; EvExit 2]) as ->.
  { unfold main, commandLine. rewrite Hp, Hpw. cbn [String.eqb andb].
    destruct (String.eqb_spec (username a) "") as [E|_]; [done|]. done. }
  split; [done|]. split; [done|]. split; [done|].
  intros info [H|[H|[]]]; done.
Qed.

(** The theorem for [-username operator -ssl=false]. *)
Lemma operator_without_password :
  main (sampleWorld None) ["-username"; "operator"; "-ssl=false"]
  = [EvStderr passwordMessage; EvExit 2] /\
  exitStatus (main (sampleWorld None) ["-username"; "operator"; "-ssl=false"])
  = Some 2 /\
  reportOf (main (sampleWorld None) ["-username"; "operator"; "-ssl=false"])
  = None /\
  (forall info, ~ In (EvDial info)
     (main (sampleWorld None) ["-username"; "operator"; "-ssl=false"])).
Proof.
  apply (username_without_password_exits (sampleWorld None)
           ["-username"; "operator"; "-ssl=false"]
           (set_ssl false (set_username "operator" flagDefaults))).
  - reflexivity.
  - discriminate.
  - reflexivity.
Defined.

(** C10. Without flags the user name stays "admin" and the password
    empty, so [main] writes the complaint about the password to the
    standard error and exits with status 2 before any dial. *)
Theorem no_flags_exits (w : World) :
  flag.Parse flags [] flagDefaults = inl flagDefaults /\
  username flagDefaults = "admin" /\ password flagDefaults = "" /\
  main w [] = [EvStderr passwordMessage; EvExit 2] /\
  exitStatus (main w []) = Some 2 /\
  (forall info, ~ In (EvDial info) (main w [])).
Proof.
  repeat split. intros info [H|[H|[]]]; done.
Qed.

End Run.

(** * Further properties of the code *)

(** ** Wrap-around of Go's [int] *)

Section WrapAround.

Lemma wrap_wrap_add a b : wrap (wrap a + b) = wrap (a + b).
Proof.
  unfold wrap. f_equal.
  replace ((a + 2 ^ (intSize - 1)) mod 2 ^ intSize - 2 ^ (intSize - 1) + b
           + 2 ^ (intSize - 1))
    with ((a + 2 ^ (intSize - 1)) mod 2 ^ intSize + b) by lia.
  rewrite Zplus_mod_idemp_l. f_equal. lia.
Qed.

Lemma wrap_add_wrap a b : wrap (a + wrap b) = wrap (a + b).
Proof. rewrite Z.add_comm, wrap_wrap_add. f_equal. lia. Qed.

Lemma wrap_idem a : wrap (wrap a) = wrap a.
Proof.
  apply wrap_small, wrap_range.
Qed.

Lemma wrap_0 : wrap 0 = 0.
Proof. reflexivity. Qed.

End WrapAround.

(** ** The collection scanner, in closed form *)

Section CollectionScannerMore.

Lemma collFold_counts docs : forall st f,
  DocCount (fst (fold_left collStep docs (st, f)))
  = (if docs is [] then DocCount st else wrap (DocCount st + len docs)) /\
  TotalQueued (fst (fold_left collStep docs (st, f)))
  = (if docs is [] then TotalQueued st
     else wrap (TotalQueued st + sumZ (map qlen docs))).
Proof.
  induction docs as [|d docs IH]; intros st f; [done|].
  cbn [fold_left].
  pose proof (collStep_DocCount st f d) as Hd.
  pose proof (collStep_TotalQueued st f d) as Ht.
  destruct (collStep (st, f) d) as [st' f']. cbn [fst] in Hd, Ht.
  destruct (IH st' f') as [-> ->]. rewrite Hd, Ht. unfold add.
  rewrite len_cons. cbn [map sumZ fold_right]. fold (sumZ (map qlen docs)).
  destruct docs as [|d' docs'].
  - change (sumZ (map qlen [])) with 0. change (len (@nil docDoc)) with 0.
    split; f_equal; lia.
  - rewrite !wrap_wrap_add. split; f_equal; lia.
Qed.

(** The scan in closed form, overflow included. *)
Lemma collLoop_reduced docs : fst (collLoop docs) = collReduced (map qlen docs).
Proof.
  unfold collLoop, collReduced. destruct docs as [|d docs]; [reflexivity|].
  cbn [fold_left map seeded].
  set (st1 := set_MinQueued (qlen d) (set_MaxQueued (qlen d)
               (set_TotalQueued (add 0 (qlen d))
                  (set_DocCount (add 0 1) zeroCollectionStats)))).
  change (collStep (zeroCollectionStats, true) d) with (st1, false).
  destruct (collFold_counts docs st1 false) as [Hn Hs].
  destruct (collFold_extrema docs st1) as [Hmax Hmin].
  destruct (fst (fold_left collStep docs (st1, false))) as [n mx mn t].
  cbn [DocCount MaxQueued MinQueued TotalQueued st1 set_MinQueued set_MaxQueued
       set_TotalQueued set_DocCount] in Hn, Hs, Hmax, Hmin.
  rewrite len_cons. cbn [sumZ fold_right]. fold (sumZ (map qlen docs)).
  replace (len (map qlen docs)) with (len docs)
    by (unfold len; by rewrite length_map).
  unfold add in Hn, Hs. subst mx mn.
  destruct docs as [|d' docs'].
  - subst n t. change (sumZ (map qlen [])) with 0.
    change (len (@nil docDoc)) with 0. f_equal; f_equal; lia.
  - rewrite wrap_wrap_add in Hn, Hs. subst n t. f_equal; f_equal; lia.
Qed.

Lemma getCollectionStats_reduced c :
  fst (getCollectionStats c) = collReduced (queueLengths c).
Proof. by rewrite getCollectionStats_fst, collLoop_reduced, queueLengths_items. Qed.

Lemma len_app {A} (l1 l2 : list A) : len (l1 ++ l2) = len l1 + len l2.
Proof. unfold len. rewrite length_app. lia. Qed.

Lemma sumZ_app l1 l2 : sumZ (l1 ++ l2) = sumZ l1 + sumZ l2.
Proof. unfold sumZ. induction l1 as [|x l1 IH]; cbn; lia. Qed.

Lemma sumZ_Permutation l1 l2 : Permutation l1 l2 -> sumZ l1 = sumZ l2.
Proof. unfold sumZ. induction 1; cbn; lia. Qed.

Lemma fold_max_out l a b :
  fold_left Z.max l (Z.max a b) = Z.max a (fold_left Z.max l b).
Proof.
  revert b. induction l as [|x l IH]; intros b; cbn; [done|].
  by rewrite <- Z.max_assoc, IH.
Qed.

Lemma fold_min_out l a b :
  fold_left Z.min l (Z.min a b) = Z.min a (fold_left Z.min l b).
Proof.
  revert b. induction l as [|x l IH]; intros b; cbn; [done|].
  by rewrite <- Z.min_assoc, IH.
Qed.

Lemma seeded_max_app l1 l2 :
  l1 <> [] -> l2 <> [] ->
  seeded Z.max (l1 ++ l2) = Z.max (seeded Z.max l1) (seeded Z.max l2).
Proof.
  destruct l1 as [|q1 r1], l2 as [|q2 r2]; try done. intros _ _.
  cbn [seeded app]. rewrite fold_left_app. cbn [fold_left]. apply fold_max_out.
Qed.

Lemma seeded_min_app l1 l2 :
  l1 <> [] -> l2 <> [] ->
  seeded Z.min (l1 ++ l2) = Z.min (seeded Z.min l1) (seeded Z.min l2).
Proof.
  destruct l1 as [|q1 r1], l2 as [|q2 r2]; try done. intros _ _.
  cbn [seeded app]. rewrite fold_left_app. cbn [fold_left]. apply fold_min_out.
Qed.

Lemma seeded_isMax l : l <> [] -> isMax (seeded Z.max l) l.
Proof. destruct l; [done|]. intros _. apply fold_max_isMax. Qed.

Lemma seeded_isMin l : l <> [] -> isMin (seeded Z.min l) l.
Proof. destruct l; [done|]. intros _. apply fold_min_isMin. Qed.

Lemma isMax_Permutation m m' l l' :
  Permutation l l' -> isMax m l -> isMax m' l' -> m = m'.
Proof.
  intros Hp [Hin Hall] [Hin' Hall']. rewrite Forall_forall in Hall, Hall'.
  apply (Permutation_in _ Hp) in Hin.
  apply (Permutation_in _ (Permutation_sym Hp)) in Hin'.
  apply list_elem_of_In in Hin, Hin'.
  specialize (Hall _ Hin'). specialize (Hall' _ Hin). lia.
Qed.

Lemma isMin_Permutation m m' l l' :
  Permutation l l' -> isMin m l -> isMin m' l' -> m = m'.
Proof.
  intros Hp [Hin Hall] [Hin' Hall']. rewrite Forall_forall in Hall, Hall'.
  apply (Permutation_in _ Hp) in Hin.
  apply (Permutation_in _ (Permutation_sym Hp)) in Hin'.
  apply list_elem_of_In in Hin, Hin'.
  specialize (Hall _ Hin'). specialize (Hall' _ Hin). lia.
Qed.

Lemma collReduced_Permutation l l' :
  Permutation l l' -> collReduced l = collReduced l'.
Proof.
  intros Hp. unfold collReduced.
  assert (len l = len l') as ->.
  { unfold len. by rewrite (Permutation_length Hp). }
  rewrite (sumZ_Permutation _ _ Hp).
  destruct l as [|q r].
  { apply Permutation_nil in Hp. by subst. }
  destruct l' as [|q' r'].
  { symmetry in Hp. by apply Permutation_nil in Hp. }
  f_equal.
  - apply (isMax_Permutation _ _ _ _ Hp); by apply seeded_isMax.
  - apply (isMin_Permutation _ _ _ _ Hp); by apply seeded_isMin.
Qed.

Lemma queueLengths_nonneg c : Forall (fun q => 0 <= q) (queueLengths c).
Proof. rewrite queueLengths_items. apply qlens_nonneg. Qed.

Lemma sumZ_between l lo hi :
  Forall (fun q => lo <= q <= hi) l ->
  len l * lo <= sumZ l <= len l * hi.
Proof.
  unfold sumZ. induction 1 as [|x l Hx _ IH]; [done|].
  rewrite len_cons. cbn [fold_right]. nia.
Qed.

Lemma sumZ_ge_In l m :
  Forall (fun q => 0 <= q) l -> In m l -> m <= sumZ l.
Proof.
  unfold sumZ. induction 1 as [|x l Hx Hall IH]; [done|].
  pose proof (sumZ_nonneg l Hall) as Hs. unfold sumZ in Hs.
  cbn [fold_right]. intros [->|Hin]; [lia|]. specialize (IH Hin). lia.
Qed.

(** X1. Scanning a stream that is one stream followed by another gives
    the statistics of the two parts put together: the counts and totals
    add up in Go's [int] (wrap-around included), the maximum is the larger
    maximum and the minimum the smaller minimum; an empty part changes
    nothing. *)
Theorem getCollectionStats_concat (c1 c2 c : Collection) :
  streamed c = (streamed c1 ++ streamed c2)%list ->
  let s1 := fst (getCollectionStats c1) in
  let s2 := fst (getCollectionStats c2) in
  let s := fst (getCollectionStats c) in
  DocCount s = add (DocCount s1) (DocCount s2) /\
  TotalQueued s = add (TotalQueued s1) (TotalQueued s2) /\
  (streamed c1 = [] -> s = s2) /\
  (streamed c2 = [] -> s = s1) /\
  (streamed c1 <> [] -> streamed c2 <> [] ->
     MaxQueued s = Z.max (MaxQueued s1) (MaxQueued s2) /\
     MinQueued s = Z.min (MinQueued s1) (MinQueued s2)).
Proof.
  intros Hs. cbn zeta. rewrite !getCollectionStats_reduced.
  assert (queueLengths c = (queueLengths c1 ++ queueLengths c2)%list) as ->.
  { unfold queueLengths. by rewrite Hs, map_app. }
  unfold collReduced at 1 2 3 4 5 6. cbn [DocCount TotalQueued]. unfold add.
  rewrite len_app, sumZ_app, !wrap_wrap_add, !wrap_add_wrap.
  split; [done|]. split; [done|]. split; [|split].
  - intros H. unfold queueLengths at 1. by rewrite H.
  - intros H. unfold queueLengths at 2. rewrite H. cbn [map].
    by rewrite app_nil_r.
  - intros H1 H2. unfold collReduced. cbn [MaxQueued MinQueued].
    assert (queueLengths c1 <> []) by (unfold queueLengths; by destruct (streamed c1)).
    assert (queueLengths c2 <> []) by (unfold queueLengths; by destruct (streamed c2)).
    by rewrite seeded_max_app, seeded_min_app.
Qed.

(** X2. The statistics of a scan do not depend on the order in which
    the cursor streams the documents. *)
Theorem getCollectionStats_any_order (c1 c2 : Collection) :
  Permutation (streamed c1) (streamed c2) ->
  fst (getCollectionStats c1) = fst (getCollectionStats c2).
Proof.
  intros Hp. rewrite !getCollectionStats_reduced.
  apply collReduced_Permutation. unfold queueLengths. by apply Permutation_map.
Qed.

(** X3. In the statistics of every scan [0 <= MinQueued <= MaxQueued];
    where the total fits Go's [int], [MaxQueued <= TotalQueued], and where
    the number of documents fits too, the total lies between [DocCount]
    times the minimum and [DocCount] times the maximum. *)
Theorem getCollectionStats_bounds (c : Collection) :
  let qs := queueLengths c in
  let s := fst (getCollectionStats c) in
  0 <= MinQueued s <= MaxQueued s /\
  (sumZ qs <= maxInt ->
     MaxQueued s <= TotalQueued s /\
     (len qs <= maxInt ->
        DocCount s * MinQueued s <= TotalQueued s <= DocCount s * MaxQueued s)).
Proof.
  cbn zeta. rewrite getCollectionStats_reduced.
  pose proof (queueLengths_nonneg c) as Hnn.
  pose proof (sumZ_nonneg _ Hnn) as Hs0. pose proof minInt_neg.
  pose proof (len_nonneg (queueLengths c)).
  unfold collReduced. cbn [DocCount MaxQueued MinQueued TotalQueued].
  destruct (queueLengths c) as [|q r] eqn:E.
  { cbn [seeded]. change (sumZ []) with 0. change (len (@nil Z)) with 0.
    rewrite wrap_0. lia. }
  destruct (seeded_isMax (q :: r)) as [Hin Hall]; [done|].
  destruct (seeded_isMin (q :: r)) as [Hin' Hall']; [done|].
  rewrite Forall_forall in Hnn, Hall, Hall'.
  assert (0 <= seeded Z.min (q :: r) <= seeded Z.max (q :: r)) as Hmm.
  { split; [apply Hnn | apply Hall]; by apply list_elem_of_In. }
  split; [done|]. intros Hsum. rewrite wrap_small by lia. split.
  - apply sumZ_ge_In; [by apply Forall_forall | done].
  - intros Hlen. rewrite wrap_small by lia.
    pose proof (sumZ_between (q :: r) (seeded Z.min (q :: r))
                  (seeded Z.max (q :: r))) as Hb.
    apply Hb. apply Forall_forall. intros x Hx. split; [by apply Hall' | by apply Hall].
Qed.

(** X1 at the sample collection streamed forwards, then backwards. *)
Lemma charmsTwice_statistics :
  let s := fst (getCollectionStats charmsTwice) in
  DocCount s = 6 /\ TotalQueued s = 6 /\ MaxQueued s = 2 /\ MinQueued s = 0.
Proof.
  destruct (getCollectionStats_concat charms charmsReversed charmsTwice eq_refl)
    as (Hn & Ht & _ & _ & Hx).
  destruct Hx as [Hmax Hmin]; [discriminate | discriminate |].
  cbn zeta. rewrite Hn, Ht, Hmax, Hmin. repeat split.
Defined.

(** X2 at the sample collection and its reversal. *)
Lemma charms_backwards :
  fst (getCollectionStats charms) = fst (getCollectionStats charmsReversed).
Proof.
  apply getCollectionStats_any_order.
  exact (Permutation_rev (streamed charms)).
Defined.

(** X3 at the sample collection. *)
Lemma charms_bounds :
  let s := fst (getCollectionStats charms) in
  0 <= MinQueued s <= MaxQueued s /\ MaxQueued s <= TotalQueued s /\
  DocCount s * MinQueued s <= TotalQueued s <= DocCount s * MaxQueued s.
Proof.
  destruct (getCollectionStats_bounds charms) as [Hmm Hs].
  destruct Hs as [Hmax Hd]; [vm_compute; discriminate|].
  split; [exact Hmm|]. split; [exact Hmax|].
  apply Hd. vm_compute. discriminate.
Defined.

End CollectionScannerMore.

(** ** The transaction scanner, in closed form *)

Section TransactionScannerMore.

Lemma txnLoop_counts docs :
  TotalTxns (txnLoop docs) = wrap (len docs) /\
  TotalOps (txnLoop docs) = wrap (sumZ (map olen docs)).
Proof.
  induction docs as [|d docs [IHn IHs]] using rev_ind; [done|].
  rewrite txnLoop_snoc, map_app, len_snoc, sumZ_app. cbn [map].
  destruct (txnStep_fields (txnLoop docs) d) as (-> & -> & _).
  rewrite IHn, IHs. unfold add. rewrite !wrap_wrap_add.
  split; f_equal. unfold sumZ. cbn. lia.
Qed.

Lemma countCode_nonneg s codes : 0 <= countCode s codes.
Proof. apply countCode_bounds. Qed.

(** The histogram after the loop, overflow included. *)
Lemma txnLoop_States_wrap docs (s : Z) :
  States (txnLoop docs) !! s =
    if Z.eqb (countCode s (map State docs)) 0 then None
    else Some (wrap (countCode s (map State docs))).
Proof.
  induction docs as [|d docs IH] using rev_ind; [done|].
  rewrite txnLoop_snoc, map_app. cbn [map]. rewrite countCode_snoc.
  destruct (txnStep_fields (txnLoop docs) d) as (_ & _ & _ & ->).
  unfold mapIncr, mapIndex.
  pose proof (countCode_nonneg s (map State docs)) as Hb.
  destruct (Z.eqb_spec s (State d)) as [->|Hne].
  - rewrite lookup_insert_eq, IH.
    destruct (Z.eqb_spec (countCode (State d) (map State docs) + 1) 0); [lia|].
    f_equal. unfold add.
    destruct (Z.eqb_spec (countCode (State d) (map State docs)) 0) as [->|_];
      cbn [default from_option id]; [done|]. by rewrite wrap_wrap_add.
  - rewrite lookup_insert_ne by done. rewrite IH. by rewrite Z.add_0_r.
Qed.

Lemma txnLoop_mapIndex docs (s : Z) :
  mapIndex (States (txnLoop docs)) s = wrap (countCode s (map State docs)).
Proof.
  unfold mapIndex. rewrite txnLoop_States_wrap.
  by destruct (Z.eqb_spec (countCode s (map State docs)) 0) as [->|_].
Qed.

Lemma countCode_app s l1 l2 :
  countCode s (l1 ++ l2) = countCode s l1 + countCode s l2.
Proof. unfold countCode. by rewrite List.filter_app, len_app. Qed.

Lemma countCode_Permutation s l1 l2 :
  Permutation l1 l2 -> countCode s l1 = countCode s l2.
Proof.
  unfold countCode.
  induction 1 as [|x l l' _ IH|x y l|l l' l'' _ IH1 _ IH2]; cbn [List.filter].
  - done.
  - destruct (Z.eqb s x); [by rewrite !len_cons, IH | done].
  - destruct (Z.eqb s x), (Z.eqb s y); by rewrite ?len_cons.
  - congruence.
Qed.

Lemma fold_max_Permutation l l' :
  Permutation l l' -> forall a, fold_left Z.max l a = fold_left Z.max l' a.
Proof.
  induction 1 as [|x l l' _ IH|x y l|l l' l'' _ IH1 _ IH2]; intros a;
    cbn [fold_left].
  - done.
  - apply IH.
  - f_equal. lia.
  - by rewrite IH1.
Qed.

Lemma fold_max_0_app l1 l2 :
  fold_left Z.max (l1 ++ l2) 0
  = Z.max (fold_left Z.max l1 0) (fold_left Z.max l2 0).
Proof.
  rewrite fold_left_app. pose proof (fold_max_ge l1 0) as H.
  rewrite <- fold_max_out. f_equal. lia.
Qed.

Lemma opsLengths_nonneg c : Forall (fun q => 0 <= q) (opsLengths c).
Proof. rewrite opsLengths_items. apply olens_nonneg. Qed.

(** X4. Scanning a stream of transactions that is one stream followed
    by another gives the statistics of the two parts put together: the
    counts, the totals and the entry of every state add up in Go's [int]
    (wrap-around included), [MaxOps] is the larger of the two, and a state
    has an entry exactly when it has one in a part. *)
Theorem getInProgressStats_concat (c1 c2 c : Collection) :
  streamed c = (streamed c1 ++ streamed c2)%list ->
  let s1 := fst (getInProgressStats c1) in
  let s2 := fst (getInProgressStats c2) in
  let s := fst (getInProgressStats c) in
  TotalTxns s = add (TotalTxns s1) (TotalTxns s2) /\
  TotalOps s = add (TotalOps s1) (TotalOps s2) /\
  MaxOps s = Z.max (MaxOps s1) (MaxOps s2) /\
  (forall code,
     mapIndex (States s) code
     = add (mapIndex (States s1) code) (mapIndex (States s2) code)) /\
  (forall code,
     States s !! code = None <->
     States s1 !! code = None /\ States s2 !! code = None).
Proof.
  intros Hs. cbn zeta. rewrite !getInProgressStats_fst.
  assert (items (Find_Iter decode_txnDoc c)
          = (items (Find_Iter decode_txnDoc c1)
             ++ items (Find_Iter decode_txnDoc c2))%list) as ->.
  { cbn. by rewrite Hs, map_app. }
  set (d1 := items (Find_Iter decode_txnDoc c1)).
  set (d2 := items (Find_Iter decode_txnDoc c2)).
  destruct (txnLoop_counts (d1 ++ d2)) as [-> ->].
  destruct (txnLoop_counts d1) as [-> ->].
  destruct (txnLoop_counts d2) as [-> ->].
  rewrite !txnLoop_MaxOps, !map_app, len_app, sumZ_app, fold_max_0_app.
  unfold add. rewrite !wrap_wrap_add, !wrap_add_wrap.
  split; [done|]. split; [done|]. split; [done|]. split.
  - intros code. rewrite !txnLoop_mapIndex, map_app, countCode_app.
    by rewrite wrap_wrap_add, wrap_add_wrap.
  - intros code. rewrite !txnLoop_States_None, map_app, in_app_iff. tauto.
Qed.

(** X4 at two transactions streamed forwards, then backwards. *)
Lemma fourTxns_statistics :
  let s := fst (getInProgressStats fourTxns) in
  TotalTxns s = 4 /\ TotalOps s = 10 /\ MaxOps s = 3 /\
  mapIndex (States s) tapplied = 2.
Proof.
  destruct (getInProgressStats_concat twoTxns twoTxnsReversed fourTxns eq_refl)
    as (Hn & Ht & Hm & Hi & _).
  cbn zeta. rewrite Hn, Ht, Hm, Hi. repeat split.
Defined.

(** X5. The statistics of a scan of transactions do not depend on the
    order in which the cursor streams the documents. *)
Theorem getInProgressStats_any_order (c1 c2 : Collection) :
  Permutation (streamed c1) (streamed c2) ->
  fst (getInProgressStats c1) = fst (getInProgressStats c2).
Proof.
  intros Hp. rewrite !getInProgressStats_fst.
  assert (Permutation (items (Find_Iter decode_txnDoc c1))
                      (items (Find_Iter decode_txnDoc c2))) as Hd.
  { cbn. by apply Permutation_map. }
  set (d1 := items (Find_Iter decode_txnDoc c1)) in *.
  set (d2 := items (Find_Iter decode_txnDoc c2)) in *.
  assert (States (txnLoop d1) = States (txnLoop d2)) as HS.
  { apply map_eq. intros code. rewrite !txnLoop_States_wrap.
    by rewrite (countCode_Permutation code _ _ (Permutation_map State Hd)). }
  assert (MaxOps (txnLoop d1) = MaxOps (txnLoop d2)) as HM.
  { rewrite !txnLoop_MaxOps.
    apply fold_max_Permutation. by apply Permutation_map. }
  destruct (txnLoop_counts d1) as [Hn1 Ht1].
  destruct (txnLoop_counts d2) as [Hn2 Ht2].
  assert (TotalTxns (txnLoop d1) = TotalTxns (txnLoop d2)) as HN.
  { rewrite Hn1, Hn2. unfold len. by rewrite (Permutation_length Hd). }
  assert (TotalOps (txnLoop d1) = TotalOps (txnLoop d2)) as HT.
  { rewrite Ht1, Ht2.
    by rewrite (sumZ_Permutation _ _ (Permutation_map olen Hd)). }
  destruct (txnLoop d1), (txnLoop d2). cbn in HS, HM, HN, HT. by subst.
Qed.

(** X5 at two transactions and their reversal. *)
Lemma twoTxns_backwards :
  fst (getInProgressStats twoTxns) = fst (getInProgressStats twoTxnsReversed).
Proof.
  apply getInProgressStats_any_order.
  exact (Permutation_rev (streamed twoTxns)).
Defined.

(** X6. In the statistics of every scan of transactions [MaxOps] is not
    negative; where the total of the operations fits Go's [int],
    [MaxOps <= TotalOps], and where the number of documents fits too,
    [TotalOps <= TotalTxns * MaxOps] and every entry of [States] lies
    between 1 and [TotalTxns]. *)
Theorem getInProgressStats_bounds (c : Collection) :
  let s := fst (getInProgressStats c) in
  0 <= MaxOps s /\
  (sumZ (opsLengths c) <= maxInt -> MaxOps s <= TotalOps s) /\
  (len (streamed c) <= maxInt ->
     (sumZ (opsLengths c) <= maxInt -> TotalOps s <= TotalTxns s * MaxOps s) /\
     (forall code v, States s !! code = Some v -> 1 <= v <= TotalTxns s)).
Proof.
  cbn zeta. rewrite getInProgressStats_fst.
  pose proof (opsLengths_nonneg c) as Hnn. rewrite opsLengths_items in *.
  set (docs := items (Find_Iter decode_txnDoc c)) in *.
  assert (len (streamed c) = len docs) as ->.
  { unfold docs, len. cbn. by rewrite length_map. }
  pose proof (sumZ_nonneg _ Hnn) as Hs0. pose proof minInt_neg.
  pose proof (len_nonneg docs).
  destruct (txnLoop_counts docs) as [-> ->]. rewrite txnLoop_MaxOps.
  destruct (fold_max_isMax (map olen docs) 0) as [Hin Hall].
  pose proof (fold_max_ge (map olen docs) 0) as Hge.
  split; [done|]. split.
  - intros Hsum. rewrite wrap_small by lia.
    destruct Hin as [<-|Hin]; [done|]. by apply sumZ_ge_In.
  - intros Hlen. split.
    + intros Hsum. rewrite !wrap_small by lia.
      apply Forall_cons in Hall as [_ Hall].
      pose proof (sumZ_between (map olen docs) 0
                    (fold_left Z.max (map olen docs) 0)) as Hb.
      replace (len (map olen docs)) with (len docs) in Hb
        by (unfold len; by rewrite length_map).
      apply Hb. rewrite Forall_forall in Hnn, Hall. apply Forall_forall.
      intros x Hx. split; [by apply Hnn | by apply Hall].
    + intros code v. rewrite txnLoop_States by done.
      pose proof (countCode_bounds code (map State docs)) as Hb.
      unfold len in Hb. rewrite length_map in Hb. fold (len docs) in Hb.
      rewrite wrap_small by lia.
      destruct (Z.eqb_spec (countCode code (map State docs)) 0); [done|].
      intros [= <-]. lia.
Qed.

(** X6 at two transactions. *)
Lemma twoTxns_bounds :
  let s := fst (getInProgressStats twoTxns) in
  MaxOps s <= TotalOps s /\ TotalOps s <= TotalTxns s * MaxOps s /\
  (forall code v, States s !! code = Some v -> 1 <= v <= TotalTxns s).
Proof.
  destruct (getInProgressStats_bounds twoTxns) as (_ & Hm & Hn).
  destruct Hn as [Ht Hv]; [vm_compute; discriminate|].
  split; [apply Hm; vm_compute; discriminate|].
  split; [apply Ht; vm_compute; discriminate | exact Hv].
Defined.

End TransactionScannerMore.

(** ** The state renderer and the scanners' errors *)

Section RenderingAndErrors.

(** X7. Two different state codes never marshal to the same text, named
    or not; so the keys of a marshalled histogram stay apart. *)
Theorem MarshalText_apart (s t : state) :
  s <> t -> fst (MarshalText s) <> fst (MarshalText t).
Proof. intros Hne E. apply Hne. cbn in E. by apply String_inj. Qed.

(** X7 at an unknown code and its negative. *)
Lemma MarshalText_apart_9 : fst (MarshalText 9) <> fst (MarshalText (-9)).
Proof. apply MarshalText_apart. discriminate. Defined.

Lemma str_app_nil_r (a : string) : a ++ "" = a.
Proof. induction a as [|x a IH]; [done|]. rewrite str_app_cons. by f_equal. Qed.

Lemma mentions_Notef_cause cause message :
  mentions (errgo.Notef cause message) cause.
Proof.
  unfold errgo.Notef. exists (message ++ ": "), "".
  by rewrite str_app_nil_r, str_app_assoc.
Qed.





End RenderingAndErrors.

(** ** The process as a whole *)

Section Process.

Variable w : World.





End Process.



(** ** Runs that fail to connect, and runs in which nothing fails *)

Section Outcomes.

Variable w : World.


Lemma launchErrors_quiet db names :
  (forall coll, ~ unitFails db names coll) -> launchErrors db names = [].
Proof.
  intros Hq. destruct (launchErrors db names) as [|e l] eqn:E; [done|].
  destruct (launchErrors_culprit db names e) as (culprit & Hu & _).
  - rewrite E. by left.
  - by destruct (Hq culprit).
Qed.

Lemma headerStats_quiet db :
  logError db = None -> inProgressError db = None ->
  InProgress (headerStats db) = fst (getInProgressStats (C db "txns")) /\
  countResult (C db "txns.log") = Ok (LogDocCount (Log (headerStats db))).
Proof.
  unfold logError, inProgressError, headerStats, logUnit, inProgressUnit,
    getLogStats.
  destruct (getInProgressStats (C db "txns")) as [ips [e|]];
    destruct (countResult (C db "txns.log")); done.
Qed.

(** The per-collection map of a run in which no unit failed. *)
Lemma quiet_report_lookup db names k :
  launchErrors db names = [] ->
  let kept := In k names /\ wantCollectionStats k = true /\
              0 < TotalQueued (scanned db k) in
  let found :=
    Collections (mergeScans (scanSlots db names) 0 names (headerStats db)) !! k in
  (kept /\ found = Some (scanned db k)) \/ (~ kept /\ found = None).
Proof.
  intros Hq kept found. apply launchErrors_nil in Hq as (Hscan & _ & _).
  assert (forall j n, names !! j = Some n -> wantCollectionStats n = true ->
            slot (scanSlots db names) (0 + j) = scanned db n) as Hslots.
  { intros j n Hj Hwn. cbn. apply scanSlots_slot; [done|done|].
    apply Hscan; [|done]. apply list_elem_of_In, list_elem_of_lookup. eauto. }
  assert (kept \/ ~ kept) as [Hk|Hk].
  { unfold kept. destruct (in_dec string_dec k names);
      destruct (wantCollectionStats k);
      destruct (Z_lt_dec 0 (TotalQueued (scanned db k)));
      intuition discriminate. }
  - left. split; [done|]. destruct Hk as (Hin & Hw & Hpos).
    by apply (mergeScans_keep db).
  - right. split; [done|]. unfold found.
    rewrite (mergeScans_skip db) by done. by rewrite headerStats_Collections.
Qed.

(** X12. When no unit fails, the process writes a report and exits
    with status 0: the report holds the statistics of the scan of "txns"
    and the count of "txns.log". *)
Theorem quiet_run_reports (osArgs : list string) (args : commandLineArgs)
    (session : Session) (names : list string) :
  commandLine osArgs = inl args ->
  DialWithInfo w (dialInfo args) = Ok session ->
  CollectionNames (DB session "juju") = Ok names ->
  faithful w ->
  (forall coll, ~ unitFails (DB session "juju") names coll) ->
  exists stats,
    main w osArgs = [EvDial (dialInfo args); EvStdout stats; EvExit 0] /\
    InProgress stats = fst (getInProgressStats (C (DB session "juju") "txns")) /\
    countResult (C (DB session "juju") "txns.log")
    = Ok (LogDocCount (Log stats)).
Proof.
  intros Hc Hd Hn Hf Hq. set (db := DB session "juju") in *.
  rewrite (main_eq w osArgs args session names Hc Hd Hn). fold db.
  rewrite gather_eq.
  assert (launchErrors db (sort_Strings names) = []) as Hnil.
  { apply launchErrors_quiet. intros coll Hu. apply (Hq coll).
    by apply unitFails_sorted. }
  pose proof (Hf (launchErrors db (sort_Strings names))) as Hp.
  rewrite Hnil in *. apply Permutation_sym, Permutation_nil in Hp.
  rewrite Hp. eexists. split; [done|].
  destruct (mergeScans_InProgress_Log (scanSlots db (sort_Strings names))
              (sort_Strings names) 0 (headerStats db)) as [-> ->].
  apply launchErrors_nil in Hnil as (_ & Hl & Hi).
  by apply headerStats_quiet.
Qed.

(** X13. Every entry of the per-collection map of a report belongs to a
    listed and wanted collection, is the statistics of that collection's
    scan, and has something queued. *)
Theorem report_entries_are_scans (osArgs : list string)
    (args : commandLineArgs) (session : Session) (names : list string)
    (stats : Stats) (k : string) (v : CollectionStats) :
  commandLine osArgs = inl args ->
  DialWithInfo w (dialInfo args) = Ok session ->
  CollectionNames (DB session "juju") = Ok names ->
  faithful w ->
  In (EvStdout stats) (main w osArgs) ->
  Collections stats !! k = Some v ->
  In k names /\ wantCollectionStats k = true /\
  v = scanned (DB session "juju") k /\ 0 < TotalQueued v.
Proof.
  intros Hc Hd Hn Hf Hr.
  destruct (main_report_known w osArgs args session names stats Hc Hd Hn Hr)
    as [Harr ->].
  set (db := DB session "juju") in *. set (sorted := sort_Strings names) in *.
  assert (launchErrors db sorted = []) as Hnil.
  { pose proof (Hf (launchErrors db sorted)) as Hp. rewrite Harr in Hp.
    by apply Permutation_nil in Hp. }
  destruct (quiet_report_lookup db sorted k Hnil)
    as [[(Hin & Hw & Hpos) ->]|[_ ->]]; [|done].
  intros [= <-]. split; [by apply In_sort_Strings|]. done.
Qed.

End Outcomes.


(** X12 at the sample server. *)
Lemma sample_run_reports :
  exists stats,
    main (sampleWorld None) sampleArgs
    = [EvDial (dialInfo sampleParsed); EvStdout stats; EvExit 0] /\
    InProgress stats = fst (getInProgressStats (C (sampleDB None) "txns")) /\
    countResult (C (sampleDB None) "txns.log") = Ok (LogDocCount (Log stats)).
Proof.
  apply (quiet_run_reports (sampleWorld None) sampleArgs sampleParsed
           (sampleSession None)
           ["txns"; "system.indexes"; "idle"; "txns.log"; "charms"]);
    [reflexivity | reflexivity | reflexivity | apply sampleWorld_faithful |].
  intros coll [(Hin & _ & He)|[(_ & e & He)|(_ & He)]].
  - cbn in Hin. destruct Hin as [<-|[<-|[<-|[<-|[<-|[]]]]]];
      by destruct He.
  - discriminate He.
  - by destruct He.
Defined.

(** X13 at the sample server: its report has an entry for "charms". *)
Lemma sample_entry_is_a_scan :
  In "charms" ["txns"; "system.indexes"; "idle"; "txns.log"; "charms"] /\
  wantCollectionStats "charms" = true /\
  scanned (sampleDB None) "charms" = scanned (sampleDB None) "charms" /\
  0 < TotalQueued (scanned (sampleDB None) "charms").
Proof.
  apply (report_entries_are_scans (sampleWorld None) sampleArgs sampleParsed
           (sampleSession None)
           ["txns"; "system.indexes"; "idle"; "txns.log"; "charms"]
           sampleReport "charms" (scanned (sampleDB None) "charms"));
    [reflexivity | reflexivity | reflexivity | apply sampleWorld_faithful
    | apply sampleReport_written | vm_compute; reflexivity].
Defined.

(** ** What the report does not depend on *)

Section Orders.

Lemma C_stored db1 db2 :
  (forall n, stored db1 n = stored db2 n) -> forall n, C db1 n = C db2 n.
Proof. intros H n. unfold C. by rewrite H. Qed.

Lemma startScans_stored db1 db2 names :
  (forall n, stored db1 n = stored db2 n) ->
  forall i acc, startScans db1 i names acc = startScans db2 i names acc.
Proof.
  intros H. induction names as [|n names IH]; intros i acc; [done|].
  cbn [startScans]. destruct (wantCollectionStats n); cbn [negb]; [|apply IH].
  rewrite IH. f_equal. unfold parallel.Do, collUnit.
  by rewrite (C_stored db1 db2 H).
Qed.

Lemma gather_stored w db1 db2 names :
  (forall n, stored db1 n = stored db2 n) ->
  gather w db1 names = gather w db2 names.
Proof.
  intros H. unfold gather. rewrite (startScans_stored db1 db2 _ H).
  unfold logUnit, inProgressUnit. by rewrite !(C_stored db1 db2 H).
Qed.

Lemma unitFails_same_names db names1 names2 coll :
  (forall n, In n names1 <-> In n names2) ->
  unitFails db names1 coll <-> unitFails db names2 coll.
Proof. intros H. unfold unitFails. by rewrite H. Qed.

Lemma Stats_eq (a b : Stats) :
  Collections a = Collections b -> InProgress a = InProgress b ->
  Log a = Log b -> a = b.
Proof. destruct a, b. cbn. by intros -> -> ->. Qed.

(** With the same names listed, in any order and any number of times,
    the outcome of the run is the same but for the text of the error. *)
Lemma gather_same_names w1 w2 db names1 names2 :
  faithful w1 -> faithful w2 ->
  (forall n, In n names1 <-> In n names2) ->
  reportOf (gather w1 db names1) = reportOf (gather w2 db names2) /\
  exitStatus (gather w1 db names1) = exitStatus (gather w2 db names2).
Proof.
  intros Hf1 Hf2 Hsame. rewrite !gather_eq.
  set (s1 := sort_Strings names1). set (s2 := sort_Strings names2).
  assert (forall n, In n s1 <-> In n s2) as Hs.
  { intros n. unfold s1, s2. by rewrite !In_sort_Strings. }
  pose proof (Hf1 (launchErrors db s1)) as Hp1.
  pose proof (Hf2 (launchErrors db s2)) as Hp2.
  destruct (launchErrors db s1) as [|e1 l1] eqn:E1.
  - assert (launchErrors db s2 = []) as E2.
    { apply launchErrors_quiet. intros coll Hu.
      apply (unitFails_same_names db s1 s2 coll Hs) in Hu.
      by apply unitFails_launchErrors in Hu. }
    rewrite E2 in *.
    apply Permutation_sym, Permutation_nil in Hp1.
    apply Permutation_sym, Permutation_nil in Hp2. rewrite Hp1, Hp2.
    cbn [reportOf exitStatus]. split; [|done]. f_equal. apply Stats_eq.
    + apply map_eq. intros k.
      destruct (quiet_report_lookup db s1 k E1) as [[(Hin & Hw & Hpos) ->]|[Hno ->]];
        destruct (quiet_report_lookup db s2 k E2) as [[(Hin' & Hw' & Hpos') ->]|[Hno' ->]];
        try done.
      * destruct Hno'. by rewrite <- Hs.
      * destruct Hno. by rewrite Hs.
    + destruct (mergeScans_InProgress_Log (scanSlots db s1) s1 0 (headerStats db))
        as [-> _].
      by destruct (mergeScans_InProgress_Log (scanSlots db s2) s2 0 (headerStats db))
        as [-> _].
    + destruct (mergeScans_InProgress_Log (scanSlots db s1) s1 0 (headerStats db))
        as [_ ->].
      by destruct (mergeScans_InProgress_Log (scanSlots db s2) s2 0 (headerStats db))
        as [_ ->].
  - assert (launchErrors db s2 <> []) as E2.
    { destruct (launchErrors_culprit db s1 e1) as (culprit & Hu & _).
      - rewrite E1. by left.
      - apply (unitFails_same_names db s1 s2 culprit Hs) in Hu.
        by apply unitFails_launchErrors in Hu. }
    destruct (arrival w1 (e1 :: l1)) as [|a1 r1].
    { by apply Permutation_nil in Hp1. }
    destruct (arrival w2 (launchErrors db s2)) as [|a2 r2].
    { by apply Permutation_nil in Hp2. }
    done.
Qed.

(** X14. Two runs with the same flags against servers that hold the
    same collections write the same report, or both none, and exit with
    the same status, whatever the order (and the repetitions) in which
    the collection names are listed and whatever the order in which the
    errors of the units arrive. *)
Theorem report_ignores_orders (w1 w2 : World) (osArgs : list string)
    (args : commandLineArgs) (session1 session2 : Session)
    (names1 names2 : list string) :
  commandLine osArgs = inl args ->
  DialWithInfo w1 (dialInfo args) = Ok session1 ->
  DialWithInfo w2 (dialInfo args) = Ok session2 ->
  CollectionNames (DB session1 "juju") = Ok names1 ->
  CollectionNames (DB session2 "juju") = Ok names2 ->
  (forall n, stored (DB session1 "juju") n = stored (DB session2 "juju") n) ->
  (forall n, In n names1 <-> In n names2) ->
  faithful w1 -> faithful w2 ->
  reportOf (main w1 osArgs) = reportOf (main w2 osArgs) /\
  exitStatus (main w1 osArgs) = exitStatus (main w2 osArgs).
Proof.
  intros Hc Hd1 Hd2 Hn1 Hn2 Hst Hsame Hf1 Hf2.
  rewrite (main_eq w1 osArgs args session1 names1 Hc Hd1 Hn1).
  rewrite (main_eq w2 osArgs args session2 names2 Hc Hd2 Hn2).
  rewrite <- (gather_stored w2 _ _ names2 Hst). cbn [reportOf exitStatus].
  by apply gather_same_names.
Qed.

End Orders.

(** X14 at the sample server and at the same server listing its names
    shuffled and "charms" twice. *)
Lemma shuffled_listing_same_report :
  reportOf (main (sampleWorld None) sampleArgs)
  = reportOf (main inOrderWorld sampleArgs) /\
  exitStatus (main (sampleWorld None) sampleArgs)
  = exitStatus (main inOrderWorld sampleArgs).
Proof.
  apply (report_ignores_orders (sampleWorld None) inOrderWorld sampleArgs
           sampleParsed (sampleSession None) {| DB := fun _ => shuffledDB |}
           ["txns"; "system.indexes"; "idle"; "txns.log"; "charms"]
           ["charms"; "idle"; "txns"; "charms"; "txns.log"; "system.indexes"]);
    try reflexivity.
  - intros n. cbn. tauto.
  - apply sampleWorld_faithful.
  - intros errs. reflexivity.
Defined.

(** ** The slots of the scans *)

Section Slots.

Variable db : Database.

Lemma startScans_untouched names : forall i cs r j n,
  names !! j = Some n ->
  wantCollectionStats n = false \/ is_Some (scanError db n) ->
  fst (startScans db i names (cs, r)) !! (i + j)%nat = cs !! (i + j)%nat.
Proof.
  induction names as [|m names IH]; intros i cs r j n Hj Hskip; [done|].
  cbn [startScans]. destruct j as [|j]; cbn in Hj.
  - injection Hj as ->. rewrite Nat.add_0_r.
    destruct (wantCollectionStats n) eqn:Hw; cbn [negb fst snd].
    + destruct Hskip as [?|[e He]]; [done|].
      rewrite Do_collUnit, startScans_before by lia.
      by rewrite collUnit_fst, He.
    + by rewrite startScans_before by lia.
  - replace (i + S j)%nat with (S i + j)%nat by lia.
    destruct (wantCollectionStats m); cbn [negb fst snd].
    + rewrite Do_collUnit, (IH _ _ _ _ _ Hj Hskip), collUnit_fst.
      destruct (scanError db m); [done|]. apply list_lookup_insert_ne. lia.
    + by apply IH with n.
Qed.

(** X15. After the first loop of [main] there is one slot for each
    listed name, at the index of the name: the statistics of its scan if
    the name is wanted and its cursor reported no error, else the zero
    statistics the slice was made with. *)
Theorem scan_slots_by_index (names : list string) (j : nat) (n : string) :
  names !! j = Some n ->
  length (scanSlots db names) = length names /\
  scanSlots db names !! j =
    Some (if wantCollectionStats n
          then match iterErr (C db n) with
               | None => scanned db n
               | Some _ => zeroCollectionStats
               end
          else zeroCollectionStats).
Proof.
  intros Hj. split; [apply scanSlots_length|].
  pose proof (lookup_lt_Some _ _ _ Hj) as Hlt. unfold scanSlots.
  assert (replicate (length names) zeroCollectionStats !! (0 + j)%nat
          = Some zeroCollectionStats) as Hzero.
  { apply lookup_replicate. by split. }
  destruct (wantCollectionStats n) eqn:Hw.
  - destruct (iterErr (C db n)) as [e|] eqn:He.
    + rewrite <- Hzero. apply (startScans_untouched names 0 _ _ j n Hj).
      right. destruct (scanError db n) eqn:E; [done|].
      apply scanError_None in E. congruence.
    + apply (startScans_slot db names 0 _ _ j n Hj Hw).
      * by apply scanError_None.
      * by rewrite length_replicate.
  - rewrite <- Hzero. apply (startScans_untouched names 0 _ _ j n Hj). by left.
Qed.

End Slots.

(** X15 at the sample server with a broken cursor over "charms". *)
Lemma sample_slots :
  length (scanSlots (sampleDB (Some "EOF"))
            ["charms"; "idle"; "system.indexes"; "txns"; "txns.log"]) = 5%nat /\
  scanSlots (sampleDB (Some "EOF"))
    ["charms"; "idle"; "system.indexes"; "txns"; "txns.log"] !! 4%nat
  = Some (scanned (sampleDB (Some "EOF")) "txns.log").
Proof.
  apply (scan_slots_by_index (sampleDB (Some "EOF"))
           ["charms"; "idle"; "system.indexes"; "txns"; "txns.log"] 4 "txns.log").
  reflexivity.
Defined.

(** ** The cause inside the fatal message *)

Section Causes.

Lemma mentions_trans a b c : mentions a b -> mentions b c -> mentions a c.
Proof.
  intros (p & q & ->) (p' & q' & ->). exists (p ++ p'), (q' ++ q).
  by rewrite !str_app_assoc.
Qed.

Variable db : Database.

Lemma launchErrors_cause names e :
  In e (launchErrors db names) ->
  exists culprit cause,
    unitCause db names culprit cause /\ mentions e culprit /\ mentions e cause.
Proof.
  unfold launchErrors. rewrite !in_app_iff. intros [H|[H|H]].
  - apply list_elem_of_In, list_elem_of_omap in H as (n & Hn & He).
    apply list_elem_of_In, List.filter_In in Hn as [Hin Hw].
    pose proof (scanError_mentions db n e He) as Hm.
    rewrite scanError_eq, getCollectionStats_snd in He.
    destruct (iterErr (C db n)) as [cause|] eqn:E; [|done].
    injection He as <-. exists n, cause. split; [left; done|]. split; [done|].
    eapply mentions_trans; [apply mentions_Notef_cause|].
    apply mentions_Notef_cause.
  - rewrite logError_eq in H.
    destruct (countResult (C db "txns.log")) as [n|cause] eqn:E; [done|].
    destruct H as [<-|[]]. exists "txns.log", cause.
    split; [right; left; done|]. split.
    + exists ("cannot count items in collection " ++ String fmt.dquote ""),
        (String fmt.dquote (": " ++ cause)). reflexivity.
    + exists ("cannot count items in collection " ++
              String fmt.dquote ("txns.log" ++ String fmt.dquote ": ")), "".
      rewrite str_app_nil_r. reflexivity.
  - rewrite inProgressError_eq in H.
    destruct (iterErr (C db "txns")) as [cause|] eqn:E; [|done].
    destruct H as [<-|[]]. exists "txns", cause.
    split; [right; right; done|]. split.
    + exists ("iteraction over collection " ++ String fmt.dquote ""),
        (String fmt.dquote (" failed: " ++ cause)). reflexivity.
    + exists ("iteraction over collection " ++
              String fmt.dquote ("txns" ++ String fmt.dquote " failed: ")), "".
      rewrite str_app_nil_r. reflexivity.
Qed.

Lemma unitCause_sorted names coll cause :
  unitCause db (sort_Strings names) coll cause <-> unitCause db names coll cause.
Proof. unfold unitCause. by rewrite In_sort_Strings. Qed.

End Causes.

(** X16. The message a failed run writes to the standard error
    contains, besides the name of the collection of a failing unit, the
    very error that unit's cursor or count reported. *)
Theorem fatal_message_carries_cause (w : World) (osArgs : list string)
    (args : commandLineArgs) (session : Session) (names : list string)
    (coll : string) :
  commandLine osArgs = inl args ->
  DialWithInfo w (dialInfo args) = Ok session ->
  CollectionNames (DB session "juju") = Ok names ->
  faithful w ->
  unitFails (DB session "juju") names coll ->
  exists text culprit cause,
    main w osArgs = [EvDial (dialInfo args); EvStderr text; EvExit 1] /\
    unitCause (DB session "juju") names culprit cause /\
    mentions text culprit /\ mentions text cause.
Proof.
  intros Hc Hd Hn Hf Hu. set (db := DB session "juju") in *.
  rewrite (main_eq w osArgs args session names Hc Hd Hn). fold db.
  rewrite gather_eq.
  apply unitFails_sorted, unitFails_launchErrors in Hu.
  pose proof (Hf (launchErrors db (sort_Strings names))) as Hp.
  destruct (arrival w _) as [|e more]; [by apply Permutation_nil in Hp|].
  assert (In e (launchErrors db (sort_Strings names))) as Hin.
  { apply (Permutation_in _ Hp). by left. }
  destruct (launchErrors_cause db _ e Hin) as (culprit & cause & Hcause & Hm1 & Hm2).
  exists (parallel.Errors_Error (e :: more)), culprit, cause.
  split; [done|]. split; [by apply unitCause_sorted|].
  split; by apply mentions_Errors_Error.
Qed.

(** X16 where the cursor over "charms" breaks off with [EOF]. *)
Lemma broken_charms_cursor_shows_cause :
  exists text culprit cause,
    main (sampleWorld (Some "EOF")) sampleArgs
    = [EvDial (dialInfo sampleParsed); EvStderr text; EvExit 1] /\
    unitCause (sampleDB (Some "EOF"))
      ["txns"; "system.indexes"; "idle"; "txns.log"; "charms"] culprit cause /\
    mentions text culprit /\ mentions text cause.
Proof.
  apply (fatal_message_carries_cause (sampleWorld (Some "EOF")) sampleArgs
           sampleParsed (sampleSession (Some "EOF"))
           ["txns"; "system.indexes"; "idle"; "txns.log"; "charms"] "charms").
  - reflexivity.
  - reflexivity.
  - reflexivity.
  - apply sampleWorld_faithful.
  - left. split; [cbn; tauto|]. split; [reflexivity|]. by eexists.
Defined.
